(** * vscode-theme-editor: a shallow embedding of [main.py]

    The script keeps three sibling files per theme (the theme file, the
    original copy [og_<name>] and the mapping [replacements_<stem>.txt]),
    shells out to the [pastel] colour tool and rewrites the theme by
    case-insensitive literal substitution.

    Conventions of the embedding:
    - a Python [str] is a [list ascii]; a character is read as the code
      point of the same number (0..255);
    - files hold text, that is what [Path.read_text] returns and what
      [Path.write_text] is given; a path names a file, a directory or
      nothing, and reading or writing fails only on what is missing or is
      a directory;
    - the file system, the console and the list of started processes are
      threaded through every command as an explicit [world];
    - [console.print] adds one event to the console, or raises when the
      console rejects the markup of the line; which lines it accepts is a
      parameter, of which it is known that a line without [[] in the
      texts put into it is accepted;
    - a Python exception is the [Raise] outcome of a computation;
    - the [pastel] executable, the console and the escape processing that
      [re.sub] performs on a replacement that contains a backslash are
      parameters of the development; the iteration order of a Python
      [set] is a parameter of each run of the interpreter, so of each
      command. *)

From Stdlib Require Import ZArith Ascii String List Lia.
From stdpp Require Import base option list countable gmap strings.

Open Scope Z_scope.
Open Scope nat_scope.
Open Scope list_scope.

(** ** Text *)

Definition text : Type := list ascii.

(** String literals are written [t "..."]. *)
Definition t (s : string) : text := list_ascii_of_string s.

Definition chr_eqb (a b : ascii) : bool := Ascii.eqb a b.

Definition in_range (lo hi : nat) (c : ascii) : bool :=
  let n := nat_of_ascii c in (lo <=? n) && (n <=? hi).

(** [str.isspace] on one character (code points below 256). *)
Definition isspace (c : ascii) : bool :=
  in_range 9 13 c || in_range 28 32 c
  || (nat_of_ascii c =? 133) || (nat_of_ascii c =? 160).

(** Simple lower-casing, as the [re] module compares characters under
    [re.IGNORECASE] (code points below 256: A-Z and the Latin-1 capitals). *)
Definition lower (c : ascii) : ascii :=
  if in_range 65 90 c
     || (in_range 192 222 c && negb (nat_of_ascii c =? 215))
  then ascii_of_nat (nat_of_ascii c + 32)
  else c.

(** The character class [[0-9a-fA-F]]. *)
Definition ishex (c : ascii) : bool :=
  in_range 48 57 c || in_range 97 102 c || in_range 65 70 c.

Definition space : ascii := " "%char.
Definition newline : ascii := ascii_of_nat 10.
Definition tab : ascii := ascii_of_nat 9.
Definition backslash : ascii := ascii_of_nat 92.
Definition dquote : ascii := ascii_of_nat 34.
Definition hash : ascii := "#"%char.
Definition dot : ascii := "."%char.

(** [s.lstrip()], [s.rstrip()] and [s.strip()]. *)
Fixpoint lstrip (s : text) : text :=
  match s with
  | [] => []
  | c :: s' => if isspace c then lstrip s' else s
  end.

Definition rstrip (s : text) : text := rev (lstrip (rev s)).

Definition strip (s : text) : text := rstrip (lstrip s).

(** [s.split(sep)] for a one-character separator: never an empty list. *)
Fixpoint split (sep : ascii) (s : text) : list text :=
  match s with
  | [] => [[]]
  | c :: s' =>
      if chr_eqb c sep then [] :: split sep s'
      else match split sep s' with
           | l :: ls => (c :: l) :: ls
           | [] => [[c]]
           end
  end.

(** [s.split(sep, 1)]: one element when [sep] does not occur, else the text
    before the first [sep] and the text after it. *)
Fixpoint split1 (sep : ascii) (s : text) : list text :=
  match s with
  | [] => [[]]
  | c :: s' =>
      if chr_eqb c sep then [[]; s']
      else match split1 sep s' with
           | l :: ls => (c :: l) :: ls
           | [] => [[c]]
           end
  end.

(** [s.split()]: the maximal runs of non-whitespace characters. *)
Fixpoint split_ws (s : text) : list text :=
  match s with
  | [] => []
  | c :: s' =>
      if isspace c then split_ws s'
      else match s' with
           | [] => [[c]]
           | d :: _ =>
               if isspace d then [c] :: split_ws s'
               else match split_ws s' with
                    | w :: ws => (c :: w) :: ws
                    | [] => [[c]]
                    end
           end
  end.

(** [sep.join(parts)]. *)
Fixpoint join (sep : text) (parts : list text) : text :=
  match parts with
  | [] => []
  | [p] => p
  | p :: ps => p ++ sep ++ join sep ps
  end.

(** [c in s]. *)
Definition contains (c : ascii) (s : text) : bool := existsb (chr_eqb c) s.

(** ** Case-insensitive literal matching, as [re.escape] with
    [re.IGNORECASE] gives it *)

Definition ci_eqb (a b : ascii) : bool := chr_eqb (lower a) (lower b).

(** [pat] matches case-insensitively at the start of [s]. *)
Fixpoint ci_prefix (pat s : text) : bool :=
  match pat, s with
  | [], _ => true
  | _ :: _, [] => false
  | p :: pat', c :: s' => ci_eqb p c && ci_prefix pat' s'
  end.

(** [re.search(re.escape(pat), s, re.IGNORECASE) is not None]. *)
Fixpoint ci_occurs (pat s : text) : bool :=
  ci_prefix pat s ||
  match s with
  | [] => false
  | _ :: s' => ci_occurs pat s'
  end.

(** The scan of [re.sub] for a non-empty literal pattern of length
    [S k]: left to right, a match is replaced and the scan resumes after
    it.  [skip] counts the characters of the current match that are still
    to be passed over; [repl m] is the text put in place of the match [m]. *)
Fixpoint sub_scan (pat : text) (repl : text -> text) (skip : nat) (s : text) : text :=
  match s with
  | [] => []
  | c :: s' =>
      match skip with
      | S k => sub_scan pat repl k s'
      | O =>
          if ci_prefix pat s
          then repl (take (length pat) s) ++ sub_scan pat repl (length pat - 1) s'
          else c :: sub_scan pat repl 0 s'
      end
  end.

(** An empty pattern matches before every character and at the end. *)
Definition sub_empty (repl : text -> text) (s : text) : text :=
  flat_map (fun c => repl [] ++ [c]) s ++ repl [].

Definition sub_literal (pat : text) (repl : text -> text) (s : text) : text :=
  match pat with
  | [] => sub_empty repl s
  | _ :: _ => sub_scan pat repl 0 s
  end.

(** The pattern of [extract_colors]: a double quote, [#], one or more hex
    digits, a double quote; the group is the [#] with its digits.  No
    character of the pattern but the first can start a match, so a failed
    attempt resumes at the failing character. *)
Inductive scan_state :=
| Idle
| SeenQuote
| SeenHash
| InHex (rev_digits : text).

Fixpoint findall_from (st : scan_state) (s : text) : list text :=
  match s with
  | [] => []
  | c :: s' =>
      let restart := if chr_eqb c dquote then SeenQuote else Idle in
      match st with
      | Idle => findall_from restart s'
      | SeenQuote =>
          if chr_eqb c hash then findall_from SeenHash s'
          else findall_from restart s'
      | SeenHash =>
          if ishex c then findall_from (InHex [c]) s'
          else findall_from restart s'
      | InHex ds =>
          if chr_eqb c dquote then (hash :: rev ds) :: findall_from Idle s'
          else if ishex c then findall_from (InHex (c :: ds)) s'
          else findall_from Idle s'
      end
  end.

(** [re.findall(r'"(#[0-9a-fA-F]+?)"', content)]. *)
Definition findall_colors (content : text) : list text := findall_from Idle content.

(** ** Paths *)

(** A [pathlib.Path], as far as the script looks into one: the directory
    ([theme_file.parent]) and the final component ([theme_file.name]). *)
Record Path := mkPath { parent : text; name : text }.

#[global] Instance Path_eq_dec : EqDecision Path.
Proof. solve_decision. Defined.

#[global] Instance Path_countable : Countable Path :=
  inj_countable' (fun p => (parent p, name p)) (fun q => mkPath q.1 q.2)
                 (fun p => match p with mkPath _ _ => eq_refl end).

(** The text before and after the last dot, as [str.rfind] locates it. *)
Fixpoint rsplit_dot (s : text) : option (text * text) :=
  match s with
  | [] => None
  | c :: s' =>
      match rsplit_dot s' with
      | Some (a, b) => Some (c :: a, b)
      | None => if chr_eqb c dot then Some ([], s') else None
      end
  end.

(** [PurePath.stem]: the name without its last suffix; a leading or a
    trailing dot starts no suffix. *)
Definition stem (p : Path) : text :=
  match rsplit_dot (name p) with
  | Some (a :: before, b :: after) => a :: before
  | _ => name p
  end.

Definition get_paths (theme_file : Path) : Path * Path :=
  let og_file := mkPath (parent theme_file) (t "og_" ++ name theme_file) in
  let replacements_file :=
    mkPath (parent theme_file) (t "replacements_" ++ stem theme_file ++ t ".txt") in
  (og_file, replacements_file).

(** ** Outcomes, events and the world *)

Inductive bad_parameter :=
| ThemeNotFound (theme_file : Path)
| ReplacementsNotFound (replacements_file : Path).

Inductive exn :=
| BadParameter (msg : bad_parameter)
| FileNotFoundError (p : Path)
| IsADirectoryError (p : Path)
| CalledProcessError (argv : list text) (returncode : Z)
| OSError (argv : list text)
| ValueError
| TemplateError (template : text)
| MarkupError (line : event)

(** One line (or piece of a line) given to [console.print]. *)
with event :=
| SavedOriginal (og_file : Path)
| InitializedReplacements (replacements_file : Path)
| Replacing (old new : text)
| AppliedReplacements (theme_file : Path)
| PastelError (command color : text) (e : exn)
| ReadingFrom (replacements_file : Path)
| ProcessingCommands (count : nat)
| ProcessingColor (old : text)
| Arrow (color : text)
| EndOfLine.

Inductive result (A : Type) :=
| Ok (a : A)
| Raise (e : exn).
Arguments Ok {A} a.
Arguments Raise {A} e.

(** What [subprocess.run] learns of a child: its exit status and its
    standard output, or that it could not be run at all (any failure that
    is not an exit status, such as a missing executable). *)
Inductive completed :=
| Completed (returncode : Z) (stdout : text)
| NotStarted.

Inductive node :=
| File (content : text)
| Dir.

Record call := mkCall { argv : list text; input : option text; outcome : completed }.

Record world := mkWorld {
  files : gmap Path node;
  console : list event;
  calls : list call
}.

(** A text without [[], and a line all of whose interpolated texts are
    such: the console has no markup to read in it but the script's own
    [[red]] and [[/red]]. *)
Definition bracket_free (s : text) : bool := negb (contains "["%char s).

Definition path_bracket_free (p : Path) : bool :=
  bracket_free (parent p) && bracket_free (name p).

Definition plain (line : event) : bool :=
  match line with
  | SavedOriginal p | InitializedReplacements p
  | AppliedReplacements p | ReadingFrom p => path_bracket_free p
  | Replacing old new => bracket_free old && bracket_free new
  | PastelError command color (CalledProcessError argv _) =>
      bracket_free command && bracket_free color && forallb bracket_free argv
  | PastelError _ _ _ => false
  | ProcessingColor old => bracket_free old
  | Arrow color => bracket_free color
  | ProcessingCommands _ | EndOfLine => true
  end.

(** What lies outside the script and is the same for every command. *)
Class External := {
  (** the outcome of starting [argv] with [input] on its standard input *)
  spawn : list text -> option text -> completed;
  (** whether the console accepts the markup of a line; it raises on a
      closing tag that closes nothing, and reads no markup where there is
      no [[] *)
  renders : event -> bool;
  renders_plain : forall line, plain line = true -> renders line = true;
  (** [re]'s reading of a replacement that contains a backslash: an error,
      or the text to put in place of each match *)
  expand_escapes : text -> result (text -> text)
}.

(** What is fixed for one run of the interpreter only: the order in which
    [list(set(xs))] gives the distinct elements of [xs] (it follows the
    hash seed of the process). *)
Class Process := {
  set_order : list text -> list text;
  set_order_perm : forall xs, Permutation (set_order xs) (remove_dups xs)
}.

(** ** Computations *)

Definition M (A : Type) : Type := world -> result A * world.

Definition ret {A} (a : A) : M A := fun w => (Ok a, w).

Definition raise {A} (e : exn) : M A := fun w => (Raise e, w).

Definition bind {A B} (m : M A) (k : A -> M B) : M B :=
  fun w =>
    match m w with
    | (Ok a, w') => k a w'
    | (Raise e, w') => (Raise e, w')
    end.

Declare Scope comp_scope.
Delimit Scope comp_scope with comp.
Notation "'let*' x := m 'in' k" := (bind m (fun x => k))
  (at level 10, x pattern, m at level 100, k at level 200) : comp_scope.
Notation "m ;;; k" := (bind m (fun _ => k))
  (at level 100, k at level 200, right associativity) : comp_scope.
Open Scope comp_scope.

Definition lift {A} (r : result A) : M A := fun w => (r, w).

(** [functools.reduce(f, xs, acc)]. *)
Fixpoint reduce {A B} (f : A -> B -> M A) (xs : list B) (acc : A) : M A :=
  match xs with
  | [] => ret acc
  | x :: xs' => let* acc' := f acc x in reduce f xs' acc'
  end.

(** A loop or comprehension that collects one value per element. *)
Fixpoint for_each {A B} (f : A -> M B) (xs : list A) : M (list B) :=
  match xs with
  | [] => ret []
  | x :: xs' => let* y := f x in let* ys := for_each f xs' in ret (y :: ys)
  end.

(** [try: body except subprocess.CalledProcessError as e: handler(e)]. *)
Definition try_except_called_process_error {A}
    (body : M A) (handler : exn -> M A) : M A :=
  fun w =>
    match body w with
    | (Raise (CalledProcessError a rc), w') => handler (CalledProcessError a rc) w'
    | other => other
    end.

(** The world after one more line on the console, one more started
    process, one more written file. *)
Definition say (e : event) (w : world) : world :=
  mkWorld (files w) (console w ++ [e]) (calls w).

Definition started (c : call) (w : world) : world :=
  mkWorld (files w) (console w) (calls w ++ [c]).

Definition written (p : Path) (content : text) (w : world) : world :=
  mkWorld (<[p := File content]> (files w)) (console w) (calls w).

Definition exists_ (p : Path) : M bool :=
  fun w => (Ok (bool_decide (is_Some (files w !! p))), w).

Definition read_text (p : Path) : M text :=
  fun w =>
    match files w !! p with
    | Some (File content) => (Ok content, w)
    | Some Dir => (Raise (IsADirectoryError p), w)
    | None => (Raise (FileNotFoundError p), w)
    end.

(** The script only writes next to a file it has just found, so the
    directory is there; a path that names a directory cannot be written. *)
Definition write_text (p : Path) (content : text) : M unit :=
  fun w =>
    match files w !! p with
    | Some Dir => (Raise (IsADirectoryError p), w)
    | _ => (Ok tt, written p content w)
    end.

(** ** The script *)

(** The line of the replacements file for one pair. *)
Definition entry (original current : text) : text := original ++ t " " ++ current.

Section Script.
Context {tool : External} {process : Process}.

(** [console.print(line)]. *)
Definition print (e : event) : M unit :=
  fun w => if renders e then (Ok tt, say e w) else (Raise (MarkupError e), w).

(** [subprocess.run(argv, input=input, text=True, capture_output=True,
    check=True).stdout]. *)
Definition subprocess_run (argv : list text) (input : option text) : M text :=
  fun w =>
    let w' := started (mkCall argv input (spawn argv input)) w in
    match spawn argv input with
    | Completed rc out =>
        if (rc =? 0)%Z then (Ok out, w') else (Raise (CalledProcessError argv rc), w')
    | NotStarted => (Raise (OSError argv), w')
    end.

Definition format_hex (color : text) : M text :=
  let* out := subprocess_run [t "pastel"; t "format"; t "hex"] (Some color) in
  ret (strip out).

Definition extract_colors (content : text) : M (list text) :=
  let colors := set_order (findall_colors content) in
  match colors with
  | [] => ret []
  | _ :: _ =>
      let* hue_out :=
        subprocess_run [t "pastel"; t "sort-by"; t "hue"]
                       (Some (join [newline] colors)) in
      let hue_sorted := split newline (strip hue_out) in
      let* lum_out :=
        subprocess_run [t "pastel"; t "sort-by"; t "luminance"]
                       (Some (join [newline] hue_sorted)) in
      for_each format_hex
        (filter (fun color => color <> []) (split newline (strip lum_out)))
  end.

(** One line of the replacements file: nothing for a line that is empty or
    has no space, else the two sides of its first space, stripped. *)
Definition parse_line (line : text) : result (list (text * text)) :=
  if negb (bool_decide (line = [])) && contains space line then
    match split1 space line with
    | [old; new] => Ok [(strip old, strip new)]
    | _ => Raise ValueError
    end
  else Ok [].

Fixpoint parse_lines (lines : list text) : result (list (text * text)) :=
  match lines with
  | [] => Ok []
  | line :: rest =>
      match parse_line line, parse_lines rest with
      | Ok ps, Ok qs => Ok (ps ++ qs)
      | Raise e, _ => Raise e
      | _, Raise e => Raise e
      end
  end.

(** The pairs that the generator yields.  Each caller drains it in one
    loop that writes no file, so the pairs are taken when the loop starts. *)
Definition read_replacements (replacements_file : Path) : M (list (text * text)) :=
  let* content := read_text replacements_file in
  lift (parse_lines (split newline (strip content))).

(** The replacement of [re.sub]: literal when it holds no backslash. *)
Definition compile_template (repl : text) : result (text -> text) :=
  if contains backslash repl then expand_escapes repl else Ok (fun _ => repl).

(** [re.sub(re.escape(old), new, content, flags=re.IGNORECASE)]. *)
Definition re_sub_escaped (old new content : text) : M text :=
  let* repl := lift (compile_template new) in
  ret (sub_literal old repl content).

Definition apply_color_replacement (content old new : text) : M text :=
  if bool_decide (old = new) then ret content
  else
    print (Replacing old new);;;
    re_sub_escaped old new content.

Definition run_pastel_command (color command : text) : M text :=
  try_except_called_process_error
    (let cmd_parts := split_ws command in
     let* out := subprocess_run ([t "pastel"] ++ cmd_parts ++ [color]) None in
     format_hex (strip out))
    (fun e => print (PastelError command color e);;; ret color).

Definition init (theme_file : Path) : M unit :=
  let* theme_exists := exists_ theme_file in
  if negb theme_exists then raise (BadParameter (ThemeNotFound theme_file))
  else
    let '(og_file, replacements_file) := get_paths theme_file in
    let* og_exists := exists_ og_file in
    (if negb og_exists then
       let* theme := read_text theme_file in
       write_text og_file theme;;;
       print (SavedOriginal og_file)
     else ret tt);;;
    let* og := read_text og_file in
    let* colors := extract_colors og in
    let replacements_content :=
      join [newline] (map (fun color => entry color color) colors) in
    write_text replacements_file replacements_content;;;
    print (InitializedReplacements replacements_file).

(** The fold of [apply]: each pair acts on what the pairs before it left. *)
Definition apply_replacements (pairs : list (text * text)) (content : text) : M text :=
  reduce (fun acc replacement =>
            apply_color_replacement acc (fst replacement) (snd replacement))
         pairs content.

Definition apply (theme_file : Path) : M unit :=
  let* theme_exists := exists_ theme_file in
  if negb theme_exists then raise (BadParameter (ThemeNotFound theme_file))
  else
    let '(og_file, replacements_file) := get_paths theme_file in
    let* replacements_exists := exists_ replacements_file in
    if negb replacements_exists
    then raise (BadParameter (ReplacementsNotFound replacements_file))
    else
      let* content := read_text og_file in
      let* pairs := read_replacements replacements_file in
      let* final_content := apply_replacements pairs content in
      write_text theme_file final_content;;;
      print (AppliedReplacements theme_file).

(** The inner fold of [run]: the commands in turn on one colour. *)
Definition transform (pastel_commands : list text) (current : text) : M text :=
  reduce (fun color cmd =>
            let* result := run_pastel_command color cmd in
            print (Arrow result);;;
            ret result)
         pastel_commands current.

(** The body of the loop of [run]: the new line for one pair. *)
Definition process_pair (pastel_commands : list text) (pair : text * text) : M text :=
  let '(old, current) := pair in
  print (ProcessingColor old);;;
  let* final_color := transform pastel_commands current in
  print EndOfLine;;;
  ret (entry old final_color).

Definition run (theme_file : Path) (pastel_commands : list text) : M unit :=
  let '(og_file, replacements_file) := get_paths theme_file in
  let* replacements_exists := exists_ replacements_file in
  if negb replacements_exists
  then raise (BadParameter (ReplacementsNotFound replacements_file))
  else
    print (ReadingFrom replacements_file);;;
    print (ProcessingCommands (length pastel_commands));;;
    let* pairs := read_replacements replacements_file in
    let* new_replacements := for_each (process_pair pastel_commands) pairs in
    write_text replacements_file (join [newline] new_replacements);;;
    apply theme_file.

End Script.

(** ** Vocabulary of the statements *)

(** [substituted old new s r]: [r] is [s] with each successive leftmost
    case-insensitive occurrence of [old] replaced by [new]; [m] is the
    occurrence, no occurrence starts before it, and the rest is treated
    in the same way. *)
Inductive substituted (old new : text) : text -> text -> Prop :=
| substituted_none s :
    ci_occurs old s = false ->
    substituted old new s s
| substituted_next pre m rest r :
    length m = length old ->
    ci_prefix old m = true ->
    ci_occurs old (pre ++ removelast m) = false ->
    substituted old new rest r ->
    substituted old new (pre ++ m ++ rest) (pre ++ new ++ r).

(** A colour as the mapping holds it: [#] and then no further [#]. *)
Definition colour_shaped (c : text) : Prop :=
  exists digits, c = hash :: digits /\ contains hash digits = false.

(** A started process that exited with status 0. *)
Definition succeeded (c : call) : Prop :=
  exists out, outcome c = Completed 0 out.

(** The exception that [check=True] raises for a process that did not. *)
Definition tool_error (c : call) : exn :=
  match outcome c with
  | Completed rc _ => CalledProcessError (argv c) rc
  | NotStarted => OSError (argv c)
  end.

(** A computation that leaves the entry of [p] in the file system as it
    found it, whatever its outcome. *)
Definition keeps (p : Path) {A} (m : M A) : Prop :=
  forall w, files (m w).2 !! p = files w !! p.

(** A computation whose outcome does not depend on the world it starts in. *)
Definition constant {A} (m : M A) : Prop :=
  forall w w', (m w).1 = (m w').1.

(** A computation that stops at the first process that does not succeed,
    with the error of that process, and otherwise raises nothing. *)
Definition fail_fast {A} (m : M A) : Prop :=
  forall w, exists new,
    calls (m w).2 = calls w ++ new /\
    match (m w).1 with
    | Ok _ => Forall succeeded new
    | Raise e =>
        exists before c,
          new = before ++ [c] /\ Forall succeeded before /\
          ~ succeeded c /\ e = tool_error c
    end.

(** [final] is what one command that succeeds, and whose output is then
    formatted, makes of the colour [current]. *)
Definition transformed_by {tool : External} (command current final : text) : Prop :=
  exists out formatted,
    spawn ([t "pastel"] ++ split_ws command ++ [current]) None = Completed 0 out /\
    spawn [t "pastel"; t "format"; t "hex"] (Some (strip out))
    = Completed 0 formatted /\
    final = strip formatted.

(** What the pattern of [extract_colors] captures: [#] and one or more
    hex digits. *)
Definition hex_colour (c : text) : Prop :=
  exists digits, c = hash :: digits /\ digits <> [] /\ forallb ishex digits = true.

(** A text of whitespace only, and a non-empty text without whitespace. *)
Definition is_blank (s : text) : bool := forallb isspace s.

Definition is_word (s : text) : bool :=
  match s with
  | [] => false
  | _ :: _ => forallb (fun c => negb (isspace c)) s
  end.

(** A pair of two words. *)
Definition words (pair : text * text) : Prop :=
  is_word pair.1 = true /\ is_word pair.2 = true.

(** The text of a replacements file that holds [pairs]. *)
Definition serialize (pairs : list (text * text)) : text :=
  join [newline] (map (fun pair => entry pair.1 pair.2) pairs).

(** A computation that never changes the file system, and one that leaves
    it as it was whenever it raises. *)
Definition silent {A} (m : M A) : Prop :=
  forall w, files (m w).2 = files w.

Definition atomic {A} (m : M A) : Prop :=
  forall w e, (m w).1 = Raise e -> files (m w).2 = files w.

(** ** What the specification says of one mapping line *)

(** The text before the first whitespace character and the text from it on. *)
Fixpoint break_space (line : text) : text * text :=
  match line with
  | [] => ([], [])
  | c :: rest =>
      if isspace c then ([], line)
      else let '(a, b) := break_space rest in (c :: a, b)
  end.

(** As the specification words it: a non-empty line is split on its first
    whitespace run into two trimmed tokens; a line without whitespace is
    skipped. *)
Definition spec_parse_line (line : text) : list (text * text) :=
  match break_space line with
  | (_, []) => []
  | (original, _ :: _ as rest) => [(strip original, strip rest)]
  end.

Definition spec_read (content : text) : list (text * text) :=
  flat_map spec_parse_line (split newline (strip content)).

(** The first whitespace character of a line, when it has one, is a space. *)
Definition space_first (line : text) : Prop :=
  match snd (break_space line) with
  | [] => True
  | c :: _ => c = space
  end.

(** ** A stand-in for the colour tool *)

(** A tool that echoes its standard input (sorting and formatting leave a
    single colour as it is), turns every colour given as an argument into
    [#ffffff], and fails with status 1 on [#000000]; with it a console
    that accepts the lines without [[] in the texts put into them and no
    other, as the real one rejects a closing tag such as [[/b]] that
    closes nothing. *)
Definition demo_spawn (argv : list text) (input : option text) : completed :=
  match input with
  | Some i => Completed 0 (i ++ [newline])
  | None =>
      if bool_decide (last argv = Some (t "#000000")) then Completed 1 []
      else Completed 0 (t "#ffffff" ++ [newline])
  end.

Definition demo : External := {|
  spawn := demo_spawn;
  renders := plain;
  renders_plain := fun line accepted => accepted;
  expand_escapes := fun template => Raise (TemplateError template)
|}.

(** Two runs of the interpreter that iterate a set in opposite orders. *)
Definition demo_process : Process := {|
  set_order := remove_dups;
  set_order_perm := fun xs => Permutation_refl (remove_dups xs)
|}.

Definition reversed_process : Process := {|
  set_order := fun xs => rev (remove_dups xs);
  set_order_perm := fun xs => Permutation_sym (Permutation_rev (remove_dups xs))
|}.

(** A tool that rejects whatever it is given on its standard input with
    status 2, cannot be run on [#000000], and turns every other colour
    given as an argument into [#ffffff]. *)
Definition faulty_spawn (argv : list text) (input : option text) : completed :=
  match input with
  | Some _ => Completed 2 []
  | None =>
      if bool_decide (last argv = Some (t "#000000")) then NotStarted
      else Completed 0 (t "#ffffff" ++ [newline])
  end.

Definition faulty : External := {|
  spawn := faulty_spawn;
  renders := plain;
  renders_plain := fun line accepted => accepted;
  expand_escapes := fun template => Raise (TemplateError template)
|}.

Definition theme_json : Path := mkPath (t "themes") (t "dark.json").
Definition og_json : Path := mkPath (t "themes") (t "og_dark.json").
Definition replacements_txt : Path := mkPath (t "themes") (t "replacements_dark.txt").

Definition world_of (fs : list (Path * node)) : world :=
  mkWorld (list_to_map fs) [] [].

(** * Properties *)

(** ** Characters and case-insensitive matching *)

Lemma chr_eqb_eq a b : chr_eqb a b = true <-> a = b.
Proof. apply Ascii.eqb_eq. Qed.

Lemma chr_eqb_neq a b : chr_eqb a b = false <-> a <> b.
Proof. apply Ascii.eqb_neq. Qed.

(** No other character is matched by [#], with or without case. *)
Lemma ci_eqb_hash c : ci_eqb hash c = chr_eqb hash c.
Proof. destruct c as [[] [] [] [] [] [] [] []]; reflexivity. Qed.

Lemma ci_eqb_sym a b : ci_eqb a b = ci_eqb b a.
Proof.
  unfold ci_eqb. destruct (chr_eqb (lower a) (lower b)) eqn:E.
  - apply chr_eqb_eq in E. symmetry. apply chr_eqb_eq. congruence.
  - apply chr_eqb_neq in E. symmetry. apply chr_eqb_neq. congruence.
Qed.

Lemma contains_cons c d s : contains c (d :: s) = chr_eqb c d || contains c s.
Proof. reflexivity. Qed.

Lemma contains_app c s1 s2 : contains c (s1 ++ s2) = contains c s1 || contains c s2.
Proof. unfold contains. apply existsb_app. Qed.

Lemma ci_prefix_length pat s : ci_prefix pat s = true -> length pat <= length s.
Proof.
  revert s. induction pat as [|p pat IH]; intros [|c s]; simpl; try lia; try discriminate.
  intros [_ Hs]%andb_true_iff. apply IH in Hs. lia.
Qed.

Lemma ci_prefix_app_true pat x y : ci_prefix pat x = true -> ci_prefix pat (x ++ y) = true.
Proof.
  revert x. induction pat as [|p pat IH]; intros [|c x]; simpl; try easy.
  intros [Hc Hx]%andb_true_iff. rewrite Hc. simpl. now apply IH.
Qed.

Lemma ci_prefix_app_long pat x y :
  length pat <= length x -> ci_prefix pat (x ++ y) = ci_prefix pat x.
Proof.
  revert x. induction pat as [|p pat IH]; intros [|c x]; simpl; try easy; try lia.
  intros Hlen. rewrite IH by lia. reflexivity.
Qed.

Lemma ci_prefix_take pat s :
  ci_prefix pat s = true -> ci_prefix pat (take (length pat) s) = true.
Proof.
  revert s. induction pat as [|p pat IH]; intros [|c s]; simpl; try easy.
  intros [Hc Hs]%andb_true_iff. rewrite Hc. simpl. now apply IH.
Qed.

Lemma ci_occurs_cons pat c s :
  ci_occurs pat (c :: s) = ci_prefix pat (c :: s) || ci_occurs pat s.
Proof. reflexivity. Qed.

Lemma ci_occurs_short pat s : length s < length pat -> ci_occurs pat s = false.
Proof.
  induction s as [|c s IH]; intros Hlen.
  - destruct pat; simpl in *; [lia | reflexivity].
  - rewrite ci_occurs_cons, IH by (simpl in Hlen; lia).
    rewrite orb_false_r. destruct (ci_prefix pat (c :: s)) eqn:E; [|reflexivity].
    apply ci_prefix_length in E. lia.
Qed.

Lemma ci_occurs_app_true pat x y : ci_occurs pat x = true -> ci_occurs pat (x ++ y) = true.
Proof.
  induction x as [|c x IH].
  - simpl. rewrite orb_false_r. intros Hp.
    destruct pat as [|p pat]; [|discriminate].
    destruct y; reflexivity.
  - rewrite <- app_comm_cons, !ci_occurs_cons.
    intros [Hp | Ho]%orb_true_iff.
    + apply (ci_prefix_app_true pat (c :: x) y) in Hp.
      rewrite <- app_comm_cons in Hp. now rewrite Hp.
    + rewrite (IH Ho). apply orb_true_r.
Qed.

Lemma ci_occurs_app_false pat x y : ci_occurs pat (x ++ y) = false -> ci_occurs pat x = false.
Proof.
  intros Hxy. destruct (ci_occurs pat x) eqn:E; [|reflexivity].
  apply (ci_occurs_app_true pat x y) in E. congruence.
Qed.

(** *** Occurrences of a colour and the [#] of the text around it *)

Section Colour.
Variables (h : text).
Hypothesis h_plain : contains hash h = false.

(** A match of the digits stops at a [#]. *)
Lemma ci_prefix_digits_hash pat x y :
  contains hash pat = false ->
  ci_prefix pat (x ++ hash :: y) = ci_prefix pat x.
Proof.
  revert x. induction pat as [|p pat IH]; intros x Hpat; [now destruct x|].
  rewrite contains_cons in Hpat. apply orb_false_iff in Hpat as [Hp Hpat].
  destruct x as [|c x]; simpl.
  - rewrite ci_eqb_sym, ci_eqb_hash, Hp. reflexivity.
  - rewrite IH by assumption. reflexivity.
Qed.

(** An occurrence of [#h] lies on one side of any later [#]. *)
Lemma ci_occurs_hash_split x y :
  ci_occurs (hash :: h) (x ++ hash :: y)
  = ci_occurs (hash :: h) x || ci_occurs (hash :: h) (hash :: y).
Proof.
  induction x as [|c x IH].
  - simpl app. change (ci_occurs (hash :: h) []) with false. reflexivity.
  - rewrite <- app_comm_cons, !ci_occurs_cons, IH.
    simpl ci_prefix. rewrite ci_prefix_digits_hash by assumption.
    now rewrite orb_assoc.
Qed.

(** No occurrence of [#h] starts inside text without [#]. *)
Lemma ci_occurs_hash_skip g r :
  contains hash g = false ->
  ci_occurs (hash :: h) (g ++ r) = ci_occurs (hash :: h) r.
Proof.
  induction g as [|c g IH]; intros Hg; [reflexivity|].
  rewrite contains_cons in Hg. apply orb_false_iff in Hg as [Hc Hg].
  rewrite <- app_comm_cons, ci_occurs_cons, IH by assumption.
  simpl ci_prefix. rewrite ci_eqb_hash, Hc. reflexivity.
Qed.

(** A match over a text and what follows it either ends within the text
    or covers it. *)
Lemma ci_prefix_app_either pat x y :
  ci_prefix pat (x ++ y) = true -> ci_prefix pat x = true \/ ci_prefix x pat = true.
Proof.
  revert x. induction pat as [|p pat IH]; intros [|c x]; simpl; auto.
  intros [Hc Hrest]%andb_true_iff. rewrite (ci_eqb_sym c p), Hc. simpl.
  now apply IH.
Qed.

(** Replacing the occurrences of the colour [#h] by a colour [#g], neither
    of which begins with the other, leaves no occurrence. *)
Lemma substituted_colour_gone g s r :
  contains hash g = false ->
  ci_prefix (hash :: h) (hash :: g) = false ->
  ci_prefix (hash :: g) (hash :: h) = false ->
  substituted (hash :: h) (hash :: g) s r ->
  ci_occurs (hash :: h) r = false.
Proof.
  intros Hg Hpre Hpre' Hsub.
  induction Hsub as [s Hs | pre m rest r Hm Hmatch Hbefore Hsub IH]; [assumption|].
  rewrite <- app_comm_cons, ci_occurs_hash_split.
  rewrite (ci_occurs_app_false _ _ _ Hbefore), orb_false_l.
  rewrite ci_occurs_cons, ci_occurs_hash_skip, IH, orb_false_r by assumption.
  destruct (ci_prefix (hash :: h) (hash :: g ++ r)) eqn:E; [|reflexivity].
  simpl in E, Hpre, Hpre'.
  apply ci_prefix_app_either in E as [E|E]; congruence.
Qed.

End Colour.

(** ** The scan of [re.sub] *)

Lemma sub_scan_skip pat repl k s :
  sub_scan pat repl k s = sub_scan pat repl 0 (drop k s).
Proof.
  revert k. induction s as [|c s IH]; intros [|k]; try reflexivity.
  simpl. apply IH.
Qed.

Lemma sub_scan_match pat repl s :
  pat <> [] ->
  ci_prefix pat s = true ->
  sub_scan pat repl 0 s
  = repl (take (length pat) s) ++ sub_scan pat repl 0 (drop (length pat) s).
Proof.
  intros Hpat Hs. destruct pat as [|p pat]; [congruence|].
  destruct s as [|c s]; [discriminate|].
  cbn [sub_scan]. rewrite Hs, sub_scan_skip.
  replace (length (p :: pat) - 1) with (length pat) by (simpl; lia).
  reflexivity.
Qed.

Lemma sub_scan_no_match pat repl c s :
  ci_prefix pat (c :: s) = false ->
  sub_scan pat repl 0 (c :: s) = c :: sub_scan pat repl 0 s.
Proof. intros Hs. cbn [sub_scan]. now rewrite Hs. Qed.

Lemma substituted_cons old new c s r :
  ci_prefix old (c :: s) = false ->
  substituted old new s r ->
  substituted old new (c :: s) (c :: r).
Proof.
  intros Hc Hsub. destruct Hsub as [s Hs | pre m rest r Hm Hmatch Hbefore Hsub].
  - apply substituted_none. now rewrite ci_occurs_cons, Hc, Hs.
  - change (substituted old new ((c :: pre) ++ m ++ rest) ((c :: pre) ++ new ++ r)).
    apply substituted_next; try assumption.
    rewrite <- app_comm_cons, ci_occurs_cons, Hbefore, orb_false_r.
    destruct (ci_prefix old (c :: pre ++ removelast m)) eqn:E; [|reflexivity].
    assert (Hm' : m = removelast m ++ drop (length (removelast m)) m).
    { destruct m as [|a m] using rev_ind; [reflexivity|].
      rewrite removelast_last, drop_app_length. reflexivity. }
    apply (ci_prefix_app_true _ _ (drop (length (removelast m)) m ++ rest)) in E.
    rewrite <- app_comm_cons, <- app_assoc, (app_assoc (removelast m)), <- Hm' in E.
    congruence.
Qed.

(** The scan yields the text with the successive leftmost occurrences
    replaced. *)
Lemma sub_scan_substituted old new s :
  old <> [] ->
  substituted old new s (sub_scan old (fun _ => new) 0 s).
Proof.
  intros Hold. remember (length s) as n eqn:Hn. revert s Hn.
  induction n as [n IH] using lt_wf_ind. intros s Hn.
  destruct s as [|c s].
  - apply substituted_none. apply ci_occurs_short.
    destruct old; [congruence | simpl; lia].
  - destruct (ci_prefix old (c :: s)) eqn:E.
    + rewrite sub_scan_match by assumption.
      pose proof (ci_prefix_length _ _ E) as Hlen.
      rewrite <- (take_drop (length old) (c :: s)) at 1.
      apply (substituted_next old new [] (take (length old) (c :: s))).
      * rewrite length_take. lia.
      * now apply ci_prefix_take.
      * apply ci_occurs_short. simpl app.
        assert (Hne : take (length old) (c :: s) <> []).
        { destruct old; [congruence | discriminate]. }
        pose proof (length_take (c :: s) (length old)) as Ht.
        destruct (take (length old) (c :: s)) as [|a m] using rev_ind; [congruence|].
        rewrite removelast_last. rewrite length_app in Ht. simpl in Ht. lia.
      * apply (IH (length (drop (length old) (c :: s)))); [|reflexivity].
        rewrite length_drop. subst n. destruct old; [congruence | simpl; lia].
    + rewrite sub_scan_no_match by assumption.
      apply substituted_cons; [assumption|].
      apply (IH (length s)); [subst n; simpl; lia | reflexivity].
Qed.

(** ** Computations *)

Lemma bind_ok {A B} (m : M A) (k : A -> M B) w a w' :
  m w = (Ok a, w') -> bind m k w = k a w'.
Proof. unfold bind. now intros ->. Qed.

Lemma bind_raise {A B} (m : M A) (k : A -> M B) w e w' :
  m w = (Raise e, w') -> bind m k w = (Raise e, w').
Proof. unfold bind. now intros ->. Qed.

(** *** Computations that leave a file alone *)

Lemma keeps_ret p {A} (a : A) : keeps p (ret a).
Proof. now intros w. Qed.

Lemma keeps_raise p {A} e : keeps p (@raise A e).
Proof. now intros w. Qed.

Lemma keeps_lift p {A} (r : result A) : keeps p (lift r).
Proof. now intros w. Qed.

Lemma keeps_print {tool : External} p e : keeps p (print e).
Proof. intros w. unfold print. now destruct (renders e). Qed.

Lemma keeps_exists p q : keeps p (exists_ q).
Proof. now intros w. Qed.

Lemma keeps_read_text p q : keeps p (read_text q).
Proof. intros w. unfold read_text. now destruct (files w !! q) as [[]|]. Qed.

Lemma keeps_write_text p q content : p <> q -> keeps p (write_text q content).
Proof.
  intros Hpq w. unfold write_text.
  destruct (files w !! q) as [[]|]; simpl; try reflexivity;
    now rewrite lookup_insert_ne.
Qed.

Lemma keeps_bind p {A B} (m : M A) (k : A -> M B) :
  keeps p m -> (forall a, keeps p (k a)) -> keeps p (bind m k).
Proof.
  intros Hm Hk w. unfold bind. specialize (Hm w).
  destruct (m w) as [[a|e] w']; simpl in *; [|assumption].
  now rewrite Hk.
Qed.

Lemma keeps_reduce p {A B} (f : A -> B -> M A) xs acc :
  (forall a x, keeps p (f a x)) -> keeps p (reduce f xs acc).
Proof.
  intros Hf. revert acc. induction xs as [|x xs IH]; intros acc; simpl.
  - apply keeps_ret.
  - apply keeps_bind; [apply Hf | intros a; apply IH].
Qed.

Lemma keeps_for_each p {A B} (f : A -> M B) xs :
  (forall x, keeps p (f x)) -> keeps p (for_each f xs).
Proof.
  intros Hf. induction xs as [|x xs IH]; simpl.
  - apply keeps_ret.
  - apply keeps_bind; [apply Hf | intros y].
    apply keeps_bind; [apply IH | intros ys; apply keeps_ret].
Qed.

Lemma keeps_try p {A} (body : M A) handler :
  keeps p body -> (forall e, keeps p (handler e)) ->
  keeps p (try_except_called_process_error body handler).
Proof.
  intros Hb Hh w. unfold try_except_called_process_error. specialize (Hb w).
  destruct (body w) as [[a|[]] w']; simpl in *; try assumption.
  now rewrite Hh.
Qed.

(** *** Computations whose outcome is the same in every world *)

Lemma constant_ret {A} (a : A) : constant (ret a).
Proof. now intros w w'. Qed.

Lemma constant_print {tool : External} e : constant (print e).
Proof. intros w w'. unfold print. now destruct (renders e). Qed.

Lemma constant_bind {A B} (m : M A) (k : A -> M B) :
  constant m -> (forall a, constant (k a)) -> constant (bind m k).
Proof.
  intros Hm Hk w w'. unfold bind. specialize (Hm w w').
  destruct (m w) as [[a|e] w1], (m w') as [[a'|e'] w1']; simpl in *;
    try congruence.
  injection Hm as ->. apply Hk.
Qed.

Lemma constant_reduce {A B} (f : A -> B -> M A) xs acc :
  (forall a x, constant (f a x)) -> constant (reduce f xs acc).
Proof.
  intros Hf. revert acc. induction xs as [|x xs IH]; intros acc; simpl.
  - apply constant_ret.
  - apply constant_bind; [apply Hf | intros a; apply IH].
Qed.

Lemma constant_try {A} (body : M A) handler :
  constant body -> (forall e, constant (handler e)) ->
  constant (try_except_called_process_error body handler).
Proof.
  intros Hb Hh w w'. unfold try_except_called_process_error. specialize (Hb w w').
  destruct (body w) as [[a|e] w1], (body w') as [[a'|e'] w1']; simpl in *;
    try congruence.
  injection Hb as ->. destruct e'; try reflexivity. apply Hh.
Qed.

(** The values of a loop are those of its steps. *)
Lemma for_each_values {A B} (f : A -> M B) xs ys :
  Forall2 (fun x y => forall w, (f x w).1 = Ok y) xs ys ->
  forall w, (for_each f xs w).1 = Ok ys.
Proof.
  induction 1 as [|x y xs ys Hxy _ IH]; intros w; [reflexivity|].
  simpl. unfold bind at 1. specialize (Hxy w).
  destruct (f x w) as [r w1]. simpl in Hxy. subst r.
  unfold bind at 1. specialize (IH w1).
  destruct (for_each f xs w1) as [r w2]. simpl in IH. subst r. reflexivity.
Qed.

(** *** Computations that stop at the first failed process *)

Lemma fail_fast_ret {A} (a : A) : fail_fast (ret a).
Proof. intros w. exists []. simpl. now rewrite app_nil_r. Qed.

Lemma fail_fast_bind {A B} (m : M A) (k : A -> M B) :
  fail_fast m -> (forall a, fail_fast (k a)) -> fail_fast (bind m k).
Proof.
  intros Hm Hk w. unfold bind. destruct (Hm w) as (new1 & Hc1 & H1).
  destruct (m w) as [[a|e] w1]; simpl in *.
  - destruct (Hk a w1) as (new2 & Hc2 & H2).
    exists (new1 ++ new2). rewrite Hc2, Hc1, app_assoc. split; [reflexivity|].
    destruct (k a w1).1 as [b|e].
    + now apply Forall_app.
    + destruct H2 as (before & c & -> & Hb & Hc & ->).
      exists (new1 ++ before), c. rewrite app_assoc.
      repeat split; try assumption. now apply Forall_app.
  - exists new1. now split.
Qed.

Lemma fail_fast_for_each {A B} (f : A -> M B) xs :
  (forall x, fail_fast (f x)) -> fail_fast (for_each f xs).
Proof.
  intros Hf. induction xs as [|x xs IH]; simpl.
  - apply fail_fast_ret.
  - apply fail_fast_bind; [apply Hf | intros y].
    apply fail_fast_bind; [apply IH | intros ys; apply fail_fast_ret].
Qed.

(** ** The three files of a theme are three different paths *)

Lemma rsplit_dot_spec s a b :
  rsplit_dot s = Some (a, b) -> s = a ++ dot :: b /\ contains dot b = false.
Proof.
  revert a b. induction s as [|c s IH]; intros a b; simpl; [discriminate|].
  destruct (rsplit_dot s) as [[a' b']|] eqn:E.
  - intros [= <- <-]. destruct (IH a' b' eq_refl) as [-> Hb]. now split.
  - destruct (chr_eqb c dot) eqn:Ec; [|discriminate].
    intros [= <- <-]. apply chr_eqb_eq in Ec as ->. split; [reflexivity|].
    clear IH. induction s as [|d s IHs]; [reflexivity|].
    simpl in E. destruct (rsplit_dot s) as [[]|]; [discriminate|].
    destruct (chr_eqb d dot) eqn:Ed; [discriminate|].
    rewrite contains_cons, IHs by reflexivity.
    unfold chr_eqb in *. now rewrite Ascii.eqb_sym, Ed.
Qed.

Lemma og_file_fresh theme_file : (get_paths theme_file).1 <> theme_file.
Proof.
  destruct theme_file as [d n]. simpl. intros [= Hn].
  apply (f_equal length) in Hn. simpl in Hn. lia.
Qed.

Lemma og_file_not_replacements theme_file :
  (get_paths theme_file).1 <> (get_paths theme_file).2.
Proof. destruct theme_file as [d n]. simpl. intros [= Hn]. Qed.

Lemma txt_suffix_has_dot x y b :
  contains dot b = false -> 4 <= length b -> x ++ t ".txt" <> y ++ dot :: b.
Proof.
  intros Hb Hlen Heq.
  rewrite <- (take_drop (length b - 4) b) in Heq, Hb.
  change (y ++ dot :: ?u ++ ?v) with (y ++ (dot :: u) ++ v) in Heq.
  rewrite app_assoc in Heq.
  apply app_inj_2 in Heq as [_ Heq]; [|rewrite length_drop; simpl; lia].
  rewrite contains_app, <- Heq in Hb.
  apply orb_false_iff in Hb as [_ Hb]. discriminate.
Qed.

Lemma replacements_file_fresh theme_file : (get_paths theme_file).2 <> theme_file.
Proof.
  destruct theme_file as [d n]. intros Hn. apply (f_equal name) in Hn.
  unfold get_paths, stem in Hn. cbn [snd name parent] in Hn.
  pose proof (f_equal length Hn) as Hlen. rewrite !length_app in Hlen.
  change (length (t "replacements_")) with 13 in Hlen.
  change (length (t ".txt")) with 4 in Hlen.
  destruct (rsplit_dot n) as [[[|a before] [|b after]]|] eqn:E; try lia.
  apply rsplit_dot_spec in E as [-> Hafter].
  rewrite length_app in Hlen. simpl in Hlen.
  rewrite app_assoc in Hn.
  apply txt_suffix_has_dot in Hn; [assumption.. | simpl; lia].
Qed.

(** ** Lines of the replacements file *)

Lemma chr_eqb_sym_false c d : chr_eqb c d = false -> chr_eqb d c = false.
Proof. unfold chr_eqb. now rewrite Ascii.eqb_sym. Qed.

Lemma split1_first sep a b :
  contains sep a = false -> split1 sep (a ++ sep :: b) = [a; b].
Proof.
  induction a as [|c a IH]; simpl.
  - intros _. unfold chr_eqb. now rewrite Ascii.eqb_refl.
  - intros [Hc Ha]%orb_false_iff. rewrite (chr_eqb_sym_false _ _ Hc), (IH Ha).
    reflexivity.
Qed.

Lemma contains_first sep s :
  contains sep s = true ->
  exists a b, s = a ++ sep :: b /\ contains sep a = false.
Proof.
  induction s as [|c s IH]; [discriminate|].
  rewrite contains_cons. destruct (chr_eqb sep c) eqn:E.
  - intros _. apply chr_eqb_eq in E as <-. now exists [], s.
  - simpl. intros (a & b & -> & Ha)%IH. exists (c :: a), b.
    split; [reflexivity|]. now rewrite contains_cons, E.
Qed.

(** A line with a space gives the two sides of its first space, stripped. *)
Lemma parse_line_pair a b :
  contains space a = false ->
  parse_line (a ++ space :: b) = Ok [(strip a, strip b)].
Proof.
  intros Ha. unfold parse_line.
  rewrite contains_app, contains_cons, orb_true_r.
  rewrite bool_decide_eq_false_2 by now destruct a.
  now rewrite split1_first.
Qed.

(** A line without a space gives nothing. *)
Lemma parse_line_skip line : contains space line = false -> parse_line line = Ok [].
Proof. intros Hl. unfold parse_line. now rewrite Hl, andb_false_r. Qed.

Lemma parse_line_total line : exists pairs, parse_line line = Ok pairs.
Proof.
  destruct (contains space line) eqn:E.
  - apply contains_first in E as (a & b & -> & Ha). rewrite parse_line_pair; eauto.
  - rewrite parse_line_skip; eauto.
Qed.

Lemma parse_lines_concat lines :
  exists per_line,
    Forall2 (fun line pairs => parse_line line = Ok pairs) lines per_line /\
    parse_lines lines = Ok (concat per_line).
Proof.
  induction lines as [|line lines (per_line & Hall & Hlines)].
  - exists []. now split.
  - destruct (parse_line_total line) as [pairs Hline].
    exists (pairs :: per_line). split; [now constructor|].
    simpl. now rewrite Hline, Hlines.
Qed.

Lemma parse_lines_skip before line after :
  contains space line = false ->
  parse_lines (before ++ line :: after) = parse_lines (before ++ after).
Proof.
  intros Hl. induction before as [|l before IH]; simpl.
  - rewrite (parse_line_skip line Hl). now destruct (parse_lines after).
  - now rewrite IH.
Qed.

Lemma break_space_spec line :
  line = (break_space line).1 ++ (break_space line).2 /\
  contains space (break_space line).1 = false.
Proof.
  induction line as [|c line [IH1 IH2]]; [now split|].
  cbn [break_space]. destruct (isspace c) eqn:E; [now split|].
  destruct (break_space line) as [a b]. cbn [fst snd] in *.
  split; [rewrite IH1 at 1; reflexivity|].
  rewrite contains_cons, IH2, orb_false_r.
  apply chr_eqb_neq. intros <-. discriminate.
Qed.

(** Where the first whitespace of a line is a space, the line is read as
    the specification words it. *)
Lemma parse_line_space_first line :
  space_first line -> parse_line line = Ok (spec_parse_line line).
Proof.
  unfold space_first, spec_parse_line.
  destruct (break_space_spec line) as [Hline Ha].
  destruct (break_space line) as [a [|c rest]]; simpl in *.
  - intros _. rewrite app_nil_r in Hline. subst a. now apply parse_line_skip.
  - intros ->. rewrite Hline. now rewrite parse_line_pair.
Qed.

Lemma parse_lines_space_first lines :
  Forall space_first lines ->
  parse_lines lines = Ok (flat_map spec_parse_line lines).
Proof.
  induction 1 as [|line lines Hl _ IH]; [reflexivity|].
  simpl. now rewrite (parse_line_space_first line Hl), IH.
Qed.

(** ** The functions of the script, one by one *)

Create HintDb keeps.

#[local] Hint Resolve keeps_ret keeps_raise keeps_lift keeps_print keeps_exists
  keeps_read_text : keeps.

(** Walks through a computation built from the pieces above. *)
Ltac keeps :=
  repeat first
    [ solve [auto with keeps]
    | apply keeps_write_text; solve [auto with keeps]
    | apply keeps_bind; [|intros ?]
    | apply keeps_reduce; intros ? ?
    | apply keeps_for_each; intros ?
    | apply keeps_try; [|intros ?]
    | match goal with
      | |- keeps _ (if ?b then _ else _) => destruct b
      | |- keeps _ (match ?x with _ => _ end) => destruct x
      end ].

Section ScriptFacts.
Context {tool : External} {process : Process}.

Lemma print_accepted e w : renders e = true -> print e w = (Ok tt, say e w).
Proof. intros He. unfold print. now rewrite He. Qed.

Lemma print_rejected e w :
  renders e = false -> print e w = (Raise (MarkupError e), w).
Proof. intros He. unfold print. now rewrite He. Qed.

Lemma subprocess_run_completed argv input rc out w :
  spawn argv input = Completed rc out ->
  subprocess_run argv input w
  = (if (rc =? 0)%Z then Ok out else Raise (CalledProcessError argv rc),
     started (mkCall argv input (Completed rc out)) w).
Proof. unfold subprocess_run. intros ->. now destruct (rc =? 0)%Z. Qed.

Lemma keeps_subprocess_run p argv input : keeps p (subprocess_run argv input).
Proof.
  intros w. unfold subprocess_run.
  destruct (spawn argv input) as [rc out|]; [destruct (rc =? 0)%Z|]; reflexivity.
Qed.
#[local] Hint Resolve keeps_subprocess_run : keeps.

Lemma keeps_format_hex p color : keeps p (format_hex color).
Proof. unfold format_hex. keeps. Qed.
#[local] Hint Resolve keeps_format_hex : keeps.

Lemma keeps_extract_colors p content : keeps p (extract_colors content).
Proof. unfold extract_colors. keeps. Qed.
#[local] Hint Resolve keeps_extract_colors : keeps.

Lemma keeps_read_replacements p replacements_file :
  keeps p (read_replacements replacements_file).
Proof. unfold read_replacements. keeps. Qed.
#[local] Hint Resolve keeps_read_replacements : keeps.

Lemma keeps_apply_color_replacement p content old new :
  keeps p (apply_color_replacement content old new).
Proof. unfold apply_color_replacement, re_sub_escaped. keeps. Qed.
#[local] Hint Resolve keeps_apply_color_replacement : keeps.

Lemma keeps_apply_replacements p pairs content :
  keeps p (apply_replacements pairs content).
Proof. unfold apply_replacements. keeps. Qed.
#[local] Hint Resolve keeps_apply_replacements : keeps.

Lemma keeps_run_pastel_command p color command :
  keeps p (run_pastel_command color command).
Proof. unfold run_pastel_command. keeps. Qed.
#[local] Hint Resolve keeps_run_pastel_command : keeps.

Lemma keeps_transform p pastel_commands current :
  keeps p (transform pastel_commands current).
Proof. unfold transform. keeps. Qed.
#[local] Hint Resolve keeps_transform : keeps.

Lemma keeps_process_pair p pastel_commands pair :
  keeps p (process_pair pastel_commands pair).
Proof. unfold process_pair. keeps. Qed.
#[local] Hint Resolve keeps_process_pair : keeps.

(** [apply] writes the theme file and nothing else. *)
Lemma keeps_apply p theme_file : p <> theme_file -> keeps p (apply theme_file).
Proof. intros Hp. unfold apply. keeps. Qed.

(** [run] writes the replacements file and the theme file and nothing else. *)
Lemma keeps_run p theme_file pastel_commands :
  p <> theme_file -> p <> (get_paths theme_file).2 ->
  keeps p (run theme_file pastel_commands).
Proof.
  intros Hp Hr. pose proof (keeps_apply p theme_file Hp).
  unfold run. simpl in Hr. keeps.
Qed.

(** *** Outcomes that do not depend on the world *)

Lemma constant_subprocess_run argv input : constant (subprocess_run argv input).
Proof.
  intros w w'. unfold subprocess_run.
  destruct (spawn argv input) as [rc out|]; [destruct (rc =? 0)%Z|]; reflexivity.
Qed.

Lemma constant_format_hex color : constant (format_hex color).
Proof.
  apply constant_bind; [apply constant_subprocess_run | intros; apply constant_ret].
Qed.

Lemma constant_run_pastel_command color command :
  constant (run_pastel_command color command).
Proof.
  apply constant_try.
  - apply constant_bind; [apply constant_subprocess_run | intros; apply constant_format_hex].
  - intros e. apply constant_bind; [apply constant_print | intros; apply constant_ret].
Qed.

Lemma constant_transform pastel_commands current :
  constant (transform pastel_commands current).
Proof.
  apply constant_reduce. intros color cmd.
  apply constant_bind; [apply constant_run_pastel_command | intros result].
  apply constant_bind; [apply constant_print | intros; apply constant_ret].
Qed.

(** *** Extraction stops at the first failed process *)

Lemma fail_fast_subprocess_run argv input : fail_fast (subprocess_run argv input).
Proof.
  intros w. exists [mkCall argv input (spawn argv input)].
  unfold subprocess_run, succeeded, tool_error.
  destruct (spawn argv input) as [rc out|]; [destruct (rc =? 0)%Z eqn:Erc|];
    simpl; (split; [reflexivity|]).
  - apply Z.eqb_eq in Erc as ->. repeat constructor. now exists out.
  - eexists [], _. repeat split; [constructor|].
    intros [o [= -> _]]. discriminate.
  - eexists [], _. repeat split; [constructor|].
    intros [o [=]].
Qed.

Lemma fail_fast_format_hex color : fail_fast (format_hex color).
Proof.
  apply fail_fast_bind; [apply fail_fast_subprocess_run | intros; apply fail_fast_ret].
Qed.

Lemma fail_fast_extract_colors content : fail_fast (extract_colors content).
Proof.
  unfold extract_colors. destruct (set_order (findall_colors content)).
  - apply fail_fast_ret.
  - apply fail_fast_bind; [apply fail_fast_subprocess_run | intros hue_out].
    apply fail_fast_bind; [apply fail_fast_subprocess_run | intros lum_out].
    apply fail_fast_for_each. intros color. apply fail_fast_format_hex.
Qed.

(** ** Substitution *)

Lemma reduce_app {A B} (f : A -> B -> M A) xs ys acc w :
  reduce f (xs ++ ys) acc w = bind (reduce f xs acc) (reduce f ys) w.
Proof.
  revert acc w. induction xs as [|x xs IH]; intros acc w; [reflexivity|].
  simpl. unfold bind in *. destruct (f acc x w) as [[a|e] w1]; [|reflexivity].
  apply IH.
Qed.

(** A pair of two different sides with a literal right side, on a console
    that accepts its line. *)
Lemma apply_color_replacement_literal content old new w :
  old <> new -> contains backslash new = false ->
  renders (Replacing old new) = true ->
  apply_color_replacement content old new w
  = (Ok (sub_literal old (fun _ => new) content), say (Replacing old new) w).
Proof.
  intros Hne Hnew Hline.
  unfold apply_color_replacement, re_sub_escaped, compile_template.
  rewrite bool_decide_eq_false_2, Hnew by assumption.
  now rewrite (bind_ok _ _ _ _ _ (print_accepted _ w Hline)).
Qed.


Lemma apply_color_replacement_same content color w :
  apply_color_replacement content color color w = (Ok content, w).
Proof. unfold apply_color_replacement. now rewrite bool_decide_eq_true_2. Qed.

Lemma apply_replacements_identity pairs content w :
  Forall (fun pair => pair.1 = pair.2) pairs ->
  apply_replacements pairs content w = (Ok content, w).
Proof.
  induction 1 as [|[old new] pairs Hp _ IH]; [reflexivity|].
  simpl in Hp. subst new. unfold apply_replacements in *. simpl.
  now rewrite (bind_ok _ _ _ _ _ (apply_color_replacement_same content old w)).
Qed.

(** ** The commands *)

Lemma exists_found p nd w : files w !! p = Some nd -> exists_ p w = (Ok true, w).
Proof. intros Hp. unfold exists_. rewrite Hp. reflexivity. Qed.

Lemma exists_missing p w : files w !! p = None -> exists_ p w = (Ok false, w).
Proof. intros Hp. unfold exists_. rewrite Hp. reflexivity. Qed.

Lemma read_text_file p content w :
  files w !! p = Some (File content) -> read_text p w = (Ok content, w).
Proof. intros Hp. unfold read_text. now rewrite Hp. Qed.

Lemma read_text_missing p w :
  files w !! p = None -> read_text p w = (Raise (FileNotFoundError p), w).
Proof. intros Hp. unfold read_text. now rewrite Hp. Qed.

Lemma write_text_file p previous content w :
  files w !! p = Some (File previous) ->
  write_text p content w = (Ok tt, written p content w).
Proof. intros Hp. unfold write_text. now rewrite Hp. Qed.

Lemma read_replacements_file p mapping pairs w :
  files w !! p = Some (File mapping) ->
  parse_lines (split newline (strip mapping)) = Ok pairs ->
  read_replacements p w = (Ok pairs, w).
Proof.
  intros Hp Hpairs. unfold read_replacements.
  rewrite (bind_ok _ _ _ _ _ (read_text_file _ _ _ Hp)).
  unfold lift. now rewrite Hpairs.
Qed.

(** C5 — A pair whose two sides are equal returns the content as it is and
    prints nothing; so does a fold of such pairs; and [apply] with a mapping
    of such pairs writes the content of the original copy to the theme file:
    all that is left to it then is to print its last line. *)
Theorem identity_mapping_leaves_content :
  (forall content color w,
      apply_color_replacement content color color w = (Ok content, w))
  /\ (forall pairs content w,
      Forall (fun pair => pair.1 = pair.2) pairs ->
      apply_replacements pairs content w = (Ok content, w))
  /\ (forall theme_file w previous content mapping pairs,
      files w !! theme_file = Some (File previous) ->
      files w !! (get_paths theme_file).1 = Some (File content) ->
      files w !! (get_paths theme_file).2 = Some (File mapping) ->
      parse_lines (split newline (strip mapping)) = Ok pairs ->
      Forall (fun pair => pair.1 = pair.2) pairs ->
      apply theme_file w
      = print (AppliedReplacements theme_file) (written theme_file content w)
      /\ files (apply theme_file w).2 !! theme_file = Some (File content)
      /\ (renders (AppliedReplacements theme_file) = true ->
          apply theme_file w
          = (Ok tt, say (AppliedReplacements theme_file)
                        (written theme_file content w)))).
Proof.
  split; [|split].
  - apply apply_color_replacement_same.
  - apply apply_replacements_identity.
  - intros theme_file w previous content mapping pairs Htheme Hog Hrep Hpairs Hid.
    unfold apply.
    rewrite (bind_ok _ _ _ _ _ (exists_found _ _ _ Htheme)). cbn [negb get_paths].
    rewrite (bind_ok _ _ _ _ _ (exists_found _ _ _ Hrep)). cbn [negb].
    rewrite (bind_ok _ _ _ _ _ (read_text_file _ _ _ Hog)).
    rewrite (bind_ok _ _ _ _ _ (read_replacements_file _ _ _ _ Hrep Hpairs)).
    rewrite (bind_ok _ _ _ _ _ (apply_replacements_identity _ content _ Hid)).
    rewrite (bind_ok _ _ _ _ _ (write_text_file _ _ content _ Htheme)).
    split; [reflexivity | split].
    + rewrite (keeps_print theme_file). apply lookup_insert_eq.
    + intros Hline. now apply print_accepted.
Qed.

(** C9 — With the theme file and the replacements file in place and no
    original copy, [apply] raises the error of reading the original copy
    and leaves the world, the theme file included, as it was. *)
Theorem apply_without_original_copy theme_file w :
  is_Some (files w !! theme_file) ->
  is_Some (files w !! (get_paths theme_file).2) ->
  files w !! (get_paths theme_file).1 = None ->
  apply theme_file w = (Raise (FileNotFoundError (get_paths theme_file).1), w).
Proof.
  intros [nd Htheme] [nr Hrep] Hog. unfold apply.
  rewrite (bind_ok _ _ _ _ _ (exists_found _ _ _ Htheme)). cbn [negb get_paths].
  rewrite (bind_ok _ _ _ _ _ (exists_found _ _ _ Hrep)). cbn [negb].
  now rewrite (bind_raise _ _ _ _ _ (read_text_missing _ _ Hog)).
Qed.

(** C6 — [init] leaves an original copy that is already there as it is, and
    [apply] and [run] never write to the path of the original copy. *)
Theorem original_copy_never_overwritten theme_file :
  (forall w original,
      files w !! (get_paths theme_file).1 = Some original ->
      files (init theme_file w).2 !! (get_paths theme_file).1 = Some original)
  /\ keeps (get_paths theme_file).1 (apply theme_file)
  /\ (forall pastel_commands,
      keeps (get_paths theme_file).1 (run theme_file pastel_commands)).
Proof.
  split; [|split].
  - intros w original Hog. unfold init, bind at 1.
    destruct (exists_ theme_file w) as [[[]|e] w1] eqn:E;
      unfold exists_ in E; injection E as E <-; try assumption.
    cbn [negb get_paths].
    rewrite (bind_ok _ _ _ _ _ (exists_found _ _ _ Hog)). cbn [negb].
    rewrite (bind_ok _ _ w tt w) by reflexivity.
    rewrite <- Hog.
    assert (Hkeep : keeps (get_paths theme_file).1
                      (let* og := read_text (get_paths theme_file).1 in
                       let* colors := extract_colors og in
                       write_text (get_paths theme_file).2
                         (join [newline] (map (fun color => entry color color) colors));;;
                       print (InitializedReplacements (get_paths theme_file).2))).
    { pose proof (og_file_not_replacements theme_file). keeps. }
    apply Hkeep.
  - apply keeps_apply, og_file_fresh.
  - intros pastel_commands.
    apply keeps_run; [apply og_file_fresh | apply og_file_not_replacements].
Qed.

(** C4 — For a pair with two different sides, a non-empty left side and a
    right side without backslash, whose line the console accepts, the
    substitution prints the pair and returns the content with each
    successive leftmost case-insensitive occurrence of [old] replaced by
    [new].  When both sides are colours (a [#] and no further [#]) and
    neither begins with the other in any case, the result holds no
    case-insensitive occurrence of [old]. *)
Theorem apply_color_replacement_substitutes content old new w :
  old <> new -> old <> [] -> contains backslash new = false ->
  renders (Replacing old new) = true ->
  exists r,
    apply_color_replacement content old new w = (Ok r, say (Replacing old new) w)
    /\ substituted old new content r
    /\ (colour_shaped old -> colour_shaped new ->
        ci_prefix old new = false -> ci_prefix new old = false ->
        ci_occurs old r = false).
Proof.
  intros Hne Hold Hnew Hline. exists (sub_scan old (fun _ => new) 0 content).
  assert (Hscan : substituted old new content (sub_scan old (fun _ => new) 0 content))
    by now apply sub_scan_substituted.
  split; [|split].
  - rewrite apply_color_replacement_literal by assumption.
    destruct old; [congruence | reflexivity].
  - assumption.
  - intros (h & -> & Hh) (g & -> & Hg) Hpre Hpre'.
    now apply (substituted_colour_gone h Hh g content).
Qed.

(** C3 — Reading the mapping never fails on a file: every
    line gives its own pairs, a line with a space gives the two sides of
    its first space, each stripped, and a line without a space (so any
    line without whitespace, and also a line whose only whitespace is a
    tab) gives nothing.  Where the first whitespace character of every
    line is a space, this is the split on the first whitespace run. *)
Theorem read_replacements_splits_at_first_space replacements_file mapping w :
  files w !! replacements_file = Some (File mapping) ->
  exists per_line,
    read_replacements replacements_file w = (Ok (concat per_line), w)
    /\ Forall2 (fun line pairs => parse_line line = Ok pairs)
               (split newline (strip mapping)) per_line
    /\ (forall a b, contains space a = false ->
                    parse_line (a ++ space :: b) = Ok [(strip a, strip b)])
    /\ (forall line, contains space line = false -> parse_line line = Ok [])
    /\ (Forall space_first (split newline (strip mapping)) ->
        concat per_line = spec_read mapping).
Proof.
  intros Hfile.
  destruct (parse_lines_concat (split newline (strip mapping))) as (per_line & Hall & Hp).
  exists per_line. repeat split.
  - now apply (read_replacements_file _ mapping).
  - assumption.
  - apply parse_line_pair.
  - apply parse_line_skip.
  - intros Hfirst. apply parse_lines_space_first in Hfirst.
    unfold spec_read. congruence.
Qed.

(** ** Extraction *)

Lemma bind_ok_inv {A B} (m : M A) (k : A -> M B) w b w' :
  bind m k w = (Ok b, w') -> exists a w1, m w = (Ok a, w1) /\ k a w1 = (Ok b, w').
Proof.
  unfold bind. destruct (m w) as [[a|e] w1]; [|discriminate]. eauto.
Qed.

Lemma subprocess_run_ok_inv argv input w out w' :
  subprocess_run argv input w = (Ok out, w') -> spawn argv input = Completed 0 out.
Proof.
  unfold subprocess_run. destruct (spawn argv input) as [rc o|]; [|discriminate].
  destruct (rc =? 0)%Z eqn:E; [|discriminate].
  apply Z.eqb_eq in E as ->. now intros [= ->].
Qed.

(** The list that the comprehension of [extract_colors] builds. *)
Lemma for_each_format_hex_inv colors w formatted w' :
  for_each format_hex colors w = (Ok formatted, w') ->
  Forall2 (fun color hex =>
             exists out, spawn [t "pastel"; t "format"; t "hex"] (Some color)
                         = Completed 0 out /\ hex = strip out)
          colors formatted.
Proof.
  revert w formatted w'.
  induction colors as [|color colors IH]; intros w formatted w'.
  - intros [= <- _]. constructor.
  - simpl. intros (hex & w1 & Hhex & Hrest)%bind_ok_inv.
    apply bind_ok_inv in Hrest as (rest & w2 & Hrest & [= <- _]).
    unfold format_hex in Hhex.
    apply bind_ok_inv in Hhex as (out & w0 & Hout%subprocess_run_ok_inv & [= <- _]).
    constructor; [eauto | eapply IH, Hrest].
Qed.

(** C8 — Extraction stops at the first process that does not exit with
    status 0 and raises the error of that process; it returns a list only
    when the hue sort, the luminance sort and every hex formatting have
    exited with status 0, and the list is then the formatted colours. *)
Theorem extract_colors_aborts_on_failure content w :
  (exists new,
      calls (extract_colors content w).2 = calls w ++ new /\
      match (extract_colors content w).1 with
      | Ok _ => Forall succeeded new
      | Raise e =>
          exists before c,
            new = before ++ [c] /\ Forall succeeded before /\
            ~ succeeded c /\ e = tool_error c
      end)
  /\ (forall colors w',
      extract_colors content w = (Ok colors, w') ->
      let found := set_order (findall_colors content) in
      (found = [] /\ colors = [])
      \/ exists hue_out lum_out,
          spawn [t "pastel"; t "sort-by"; t "hue"] (Some (join [newline] found))
          = Completed 0 hue_out
          /\ spawn [t "pastel"; t "sort-by"; t "luminance"]
                   (Some (join [newline] (split newline (strip hue_out))))
             = Completed 0 lum_out
          /\ Forall2 (fun color hex =>
                        exists out,
                          spawn [t "pastel"; t "format"; t "hex"] (Some color)
                          = Completed 0 out /\ hex = strip out)
                     (filter (fun color => color <> [])
                             (split newline (strip lum_out)))
                     colors).
Proof.
  split; [apply fail_fast_extract_colors|].
  intros colors w'. unfold extract_colors.
  destruct (set_order (findall_colors content)) as [|c found] eqn:E.
  - intros [= <- _]. now left.
  - intros (hue_out & w1 & Hhue%subprocess_run_ok_inv & Hrest)%bind_ok_inv.
    apply bind_ok_inv in Hrest as (lum_out & w2 & Hlum%subprocess_run_ok_inv & Hrest).
    apply for_each_format_hex_inv in Hrest.
    right. exists hue_out, lum_out. auto.
Qed.

(** ** The transform pipeline *)

Lemma run_pastel_command_failed color command rc out w :
  let argv := [t "pastel"] ++ split_ws command ++ [color] in
  spawn argv None = Completed rc out -> rc <> 0%Z ->
  renders (PastelError command color (CalledProcessError argv rc)) = true ->
  run_pastel_command color command w
  = (Ok color,
     say (PastelError command color (CalledProcessError argv rc))
         (started (mkCall argv None (Completed rc out)) w)).
Proof.
  intros argv Hspawn Hrc Hline.
  unfold run_pastel_command, try_except_called_process_error.
  rewrite (bind_raise _ _ w (CalledProcessError argv rc)
             (started (mkCall argv None (Completed rc out)) w)).
  - now rewrite (bind_ok _ _ _ _ _ (print_accepted _ _ Hline)).
  - fold argv. rewrite (subprocess_run_completed _ _ _ _ _ Hspawn).
    apply Z.eqb_neq in Hrc. now rewrite Hrc.
Qed.

Lemma run_pastel_command_transformed command current final w :
  transformed_by command current final ->
  (run_pastel_command current command w).1 = Ok final.
Proof.
  intros (out & formatted & Hout & Hformatted & ->).
  unfold run_pastel_command, try_except_called_process_error, format_hex.
  rewrite (bind_ok _ _ _ _ _ (subprocess_run_completed _ _ _ _ _ Hout)).
  rewrite (bind_ok _ _ _ _ _ (subprocess_run_completed _ _ _ _ _ Hformatted)).
  reflexivity.
Qed.

Lemma transform_single command current final w :
  (run_pastel_command current command w).1 = Ok final ->
  renders (Arrow final) = true ->
  (transform [command] current w).1 = Ok final.
Proof.
  intros Hstep Harrow. unfold transform. simpl. unfold bind at 1 2.
  destruct (run_pastel_command current command w) as [r w1].
  simpl in Hstep. subst r.
  now rewrite (bind_ok _ _ _ _ _ (print_accepted _ w1 Harrow)).
Qed.

Lemma process_pair_value pastel_commands old current final :
  renders (ProcessingColor old) = true ->
  (forall w, (transform pastel_commands current w).1 = Ok final) ->
  forall w, (process_pair pastel_commands (old, current) w).1 = Ok (entry old final).
Proof.
  intros Hline Hfinal w. unfold process_pair.
  rewrite (bind_ok _ _ _ _ _ (print_accepted _ w Hline)).
  unfold bind at 1. specialize (Hfinal (say (ProcessingColor old) w)).
  destruct (transform pastel_commands current _) as [r w1].
  simpl in Hfinal. subst r.
  now rewrite (bind_ok _ _ _ _ _
                 (print_accepted _ w1 (renders_plain EndOfLine eq_refl))).
Qed.

(** After [run], the replacements file holds the lines that the loop has
    built, whether or not the final [apply] succeeds. *)
Lemma run_rewrites theme_file pastel_commands w mapping pairs lines :
  files w !! (get_paths theme_file).2 = Some (File mapping) ->
  renders (ReadingFrom (get_paths theme_file).2) = true ->
  parse_lines (split newline (strip mapping)) = Ok pairs ->
  (forall w0, (for_each (process_pair pastel_commands) pairs w0).1 = Ok lines) ->
  files (run theme_file pastel_commands w).2 !! (get_paths theme_file).2
  = Some (File (join [newline] lines)).
Proof.
  intros Hfile Hreading Hpairs Hlines. unfold run. cbn [get_paths] in *.
  set (replacements_file := mkPath _ _) in *.
  rewrite (bind_ok _ _ _ _ _ (exists_found _ _ _ Hfile)). cbn [negb].
  rewrite (bind_ok _ _ _ _ _ (print_accepted _ w Hreading)).
  set (w1 := say _ w).
  rewrite (bind_ok _ _ _ _ _
             (print_accepted _ w1
                (renders_plain (ProcessingCommands (length pastel_commands)) eq_refl))).
  set (w2 := say _ w1).
  assert (Hfile2 : files w2 !! replacements_file = Some (File mapping)) by assumption.
  rewrite (bind_ok _ _ _ _ _ (read_replacements_file _ _ _ _ Hfile2 Hpairs)).
  pose proof (keeps_for_each replacements_file (process_pair pastel_commands) pairs
                (keeps_process_pair _ _) w2) as Hkeep.
  specialize (Hlines w2).
  destruct (for_each (process_pair pastel_commands) pairs w2) as [r w3] eqn:E.
  cbn [fst snd] in Hlines, Hkeep. subst r.
  rewrite (bind_ok _ _ _ _ _ E).
  rewrite Hfile2 in Hkeep.
  rewrite (bind_ok _ _ _ _ _ (write_text_file _ _ (join [newline] lines) _ Hkeep)).
  rewrite (keeps_apply replacements_file theme_file).
  - apply lookup_insert_eq.
  - apply (replacements_file_fresh theme_file).
Qed.



(** C2 — [init] and [apply] stop at a missing theme file before they touch
    anything.  [run] does not: with the replacements file in place and no
    theme file it calls the tool and rewrites the replacements file, and
    only then fails in the [apply] that ends it. *)
Theorem run_checks_theme_file_last :
  (forall theme_file w,
      files w !! theme_file = None ->
      init theme_file w = (Raise (BadParameter (ThemeNotFound theme_file)), w)
      /\ apply theme_file w = (Raise (BadParameter (ThemeNotFound theme_file)), w))
  /\ (let w := world_of [(replacements_txt, File (t "#112233 #112233"))] in
      let after := @run demo theme_json [t "lighten 0.1"] w in
      files w !! theme_json = None
      /\ after.1 = Raise (BadParameter (ThemeNotFound theme_json))
      /\ files after.2 !! replacements_txt = Some (File (t "#112233 #ffffff"))
      /\ length (calls after.2) = 2).
Proof.
  split.
  - intros theme_file w Hmissing. split.
    + unfold init. now rewrite (bind_ok _ _ _ _ _ (exists_missing _ _ Hmissing)).
    + unfold apply. now rewrite (bind_ok _ _ _ _ _ (exists_missing _ _ Hmissing)).
  - vm_compute. repeat split.
Qed.

End ScriptFacts.

(** ** The statements at work, with the stand-in tool *)

Example findall_colors_quoted :
  findall_colors
    ([dquote] ++ t "#112233" ++ [dquote; dquote] ++ t "#zz" ++ [dquote; dquote]
     ++ t "#AbC" ++ [dquote] ++ t "#fff" ++ [dquote])
  = [t "#112233"; t "#AbC"].
Proof. reflexivity. Qed.

(** A failed attempt is taken up again at the quote that ended it, and the
    closing quote of a match opens no other. *)
Example findall_colors_restart :
  findall_colors ([dquote] ++ t "#" ++ [dquote] ++ t "#a" ++ [dquote]) = [t "#a"]
  /\ findall_colors ([dquote; dquote] ++ t "#ab" ++ [dquote]) = [t "#ab"]
  /\ findall_colors ([dquote] ++ t "#ab" ++ [dquote] ++ t "#cd" ++ [dquote])
     = [t "#ab"].
Proof. repeat split. Qed.

Example sub_literal_resumes_after_match :
  sub_literal (t "aa") (fun _ => t "a") (t "aaa") = t "aa".
Proof. reflexivity. Qed.

Example sub_literal_empty_pattern :
  sub_literal [] (fun _ => t "X") (t "abc") = t "XaXbXcX".
Proof. reflexivity. Qed.

Example stem_examples :
  stem (mkPath [] (t "dark.json")) = t "dark"
  /\ stem (mkPath [] (t "a.tar.gz")) = t "a.tar"
  /\ stem (mkPath [] (t ".hidden")) = t ".hidden"
  /\ stem (mkPath [] (t "trailing.")) = t "trailing.".
Proof. repeat split. Qed.

Example get_paths_dark :
  get_paths theme_json = (og_json, replacements_txt).
Proof. reflexivity. Qed.

(** A mapping line whose two colours are separated by a tab is dropped,
    and a tab before the first space stays in the left side: the lines are
    not split on their first whitespace run. *)
Lemma tab_separated_line_not_split :
  let mapping := t "#aaa" ++ [tab] ++ t "#bbb" in
  let mixed := t "#aaa" ++ [tab] ++ t "#bbb #ccc" in
  (read_replacements replacements_txt
     (world_of [(replacements_txt, File mapping)])).1 = Ok []
  /\ spec_read mapping = [(t "#aaa", t "#bbb")]
  /\ (read_replacements replacements_txt
        (world_of [(replacements_txt, File mixed)])).1
     = Ok [(t "#aaa" ++ [tab] ++ t "#bbb", t "#ccc")]
  /\ spec_read mixed = [(t "#aaa", t "#bbb #ccc")].
Proof. vm_compute. repeat split. Qed.

(** A right side that holds the left side in another case, or begins with
    it, or with which it begins, puts an occurrence of the left side into
    the result; so can sides that are no colours; an empty left side
    occurs everywhere; and a left side with a closing tag makes the
    console raise before anything is replaced. *)
Lemma case_variant_occurrence_remains :
  t "#abc" <> t "#ABC"
  /\ (@apply_color_replacement demo (t "#abc") (t "#abc") (t "#ABC")
        (world_of [])).1 = Ok (t "#ABC")
  /\ ci_occurs (t "#abc") (t "#ABC") = true
  /\ t "#fff" <> t "#ffffff"
  /\ (@apply_color_replacement demo (t "x #FFF y") (t "#fff") (t "#ffffff")
        (world_of [])).1 = Ok (t "x #ffffff y")
  /\ ci_occurs (t "#fff") (t "x #ffffff y") = true
  /\ (@apply_color_replacement demo (t "#abcc") (t "#abc") (t "#ab")
        (world_of [])).1 = Ok (t "#abc")
  /\ (@apply_color_replacement demo (t "aab") (t "ab") (t "b")
        (world_of [])).1 = Ok (t "ab")
  /\ (@apply_color_replacement demo (t "ab") [] (t "#") (world_of [])).1
     = Ok (t "#a#b#")
  /\ @apply_color_replacement demo (t "x") (t "[/a]") (t "y") (world_of [])
     = (Raise (MarkupError (Replacing (t "[/a]") (t "y"))), world_of []).
Proof. repeat split; discriminate. Qed.



Lemma read_replacements_splits_at_first_space_witness :
  exists per_line,
    read_replacements replacements_txt
      (world_of [(replacements_txt,
                  File (t "#aaa  #bbb" ++ [newline; newline] ++ t "junk"))])
    = (Ok (concat per_line),
       world_of [(replacements_txt,
                  File (t "#aaa  #bbb" ++ [newline; newline] ++ t "junk"))])
    /\ concat per_line = [(t "#aaa", t "#bbb")].
Proof.
  destruct (read_replacements_splits_at_first_space replacements_txt
              (t "#aaa  #bbb" ++ [newline; newline] ++ t "junk")
              (world_of [(replacements_txt,
                          File (t "#aaa  #bbb" ++ [newline; newline] ++ t "junk"))])
              eq_refl)
    as (per_line & Hread & _ & _ & _ & Hspec).
  exists per_line. split; [exact Hread|].
  rewrite Hspec; [reflexivity|].
  vm_compute. repeat constructor.
Defined.

Lemma apply_color_replacement_substitutes_witness :
  exists r,
    @apply_color_replacement demo (t "a #ABCDEF b #abcdef0") (t "#abcdef") (t "#123")
      (world_of [])
    = (Ok r, say (Replacing (t "#abcdef") (t "#123")) (world_of []))
    /\ substituted (t "#abcdef") (t "#123") (t "a #ABCDEF b #abcdef0") r
    /\ ci_occurs (t "#abcdef") r = false.
Proof.
  destruct (@apply_color_replacement_substitutes demo (t "a #ABCDEF b #abcdef0")
              (t "#abcdef") (t "#123") (world_of []))
    as (r & Hr & Hsub & Hgone);
    [discriminate | discriminate | reflexivity | reflexivity |].
  exists r. repeat split; [exact Hr | exact Hsub |].
  apply Hgone.
  - exists (t "abcdef"). split; reflexivity.
  - exists (t "123"). split; reflexivity.
  - reflexivity.
  - reflexivity.
Defined.

Lemma identity_mapping_leaves_content_witness :
  let w := world_of [(theme_json, File (t "edited"));
                     (og_json, File ([dquote] ++ t "#112233" ++ [dquote]));
                     (replacements_txt, File (t "#112233 #112233"))] in
  @apply_replacements demo [(t "#112233", t "#112233")] (t "x") w = (Ok (t "x"), w)
  /\ @apply demo theme_json w
     = (Ok tt, say (AppliedReplacements theme_json)
                   (written theme_json ([dquote] ++ t "#112233" ++ [dquote]) w)).
Proof.
  intros w. destruct (@identity_mapping_leaves_content demo) as (_ & Hfold & Happly).
  split.
  - apply Hfold. repeat constructor.
  - apply (Happly theme_json w (t "edited") _ (t "#112233 #112233")
             [(t "#112233", t "#112233")]);
      try reflexivity.
    repeat constructor.
Defined.

Lemma apply_without_original_copy_witness :
  let w := world_of [(theme_json, File (t "edited"));
                     (replacements_txt, File (t "#112233 #445566"))] in
  @apply demo theme_json w = (Raise (FileNotFoundError og_json), w).
Proof.
  intros w. apply (@apply_without_original_copy demo theme_json w).
  - exists (File (t "edited")). reflexivity.
  - exists (File (t "#112233 #445566")). reflexivity.
  - reflexivity.
Defined.

Lemma original_copy_never_overwritten_witness :
  let w := world_of [(theme_json, File ([dquote] ++ t "#445566" ++ [dquote]));
                     (og_json, File ([dquote] ++ t "#112233" ++ [dquote]))] in
  files (@init demo demo_process theme_json w).2 !! og_json
  = Some (File ([dquote] ++ t "#112233" ++ [dquote])).
Proof.
  intros w.
  apply (proj1 (@original_copy_never_overwritten demo demo_process theme_json) w).
  reflexivity.
Defined.

Lemma extract_colors_aborts_on_failure_witness :
  let content := [dquote] ++ t "#112233" ++ [dquote] in
  exists hue_out lum_out,
    demo_spawn [t "pastel"; t "sort-by"; t "hue"] (Some (t "#112233"))
    = Completed 0 hue_out
    /\ demo_spawn [t "pastel"; t "sort-by"; t "luminance"]
                  (Some (join [newline] (split newline (strip hue_out))))
       = Completed 0 lum_out.
Proof.
  intros content.
  destruct (proj2 (@extract_colors_aborts_on_failure demo demo_process content
                     (world_of []))
              [t "#112233"]
              (snd (@extract_colors demo demo_process content (world_of []))) eq_refl)
    as [[Hnone _] | (hue_out & lum_out & Hhue & Hlum & _)].
  - discriminate Hnone.
  - exists hue_out, lum_out. split; [exact Hhue | exact Hlum].
Defined.



Lemma run_checks_theme_file_last_witness :
  let w := world_of [(replacements_txt, File (t "#112233 #112233"))] in
  @init demo demo_process theme_json w
  = (Raise (BadParameter (ThemeNotFound theme_json)), w)
  /\ @apply demo theme_json w = (Raise (BadParameter (ThemeNotFound theme_json)), w).
Proof.
  intros w. apply (proj1 (@run_checks_theme_file_last demo demo_process) theme_json w).
  reflexivity.
Defined.

(** * Further properties of the script *)

(** ** Stripping, splitting and joining *)

Lemma lstrip_blank_app pre s : is_blank pre = true -> lstrip (pre ++ s) = lstrip s.
Proof.
  induction pre as [|c pre IH]; [reflexivity|]. simpl.
  intros [Hc Hpre]%andb_true_iff. rewrite Hc. now apply IH.
Qed.

Lemma is_blank_rev s : is_blank (rev s) = is_blank s.
Proof.
  unfold is_blank. induction s as [|c s IH]; [reflexivity|].
  simpl. rewrite forallb_app, IH. simpl. rewrite andb_true_r. apply andb_comm.
Qed.

Lemma rstrip_app_blank s post : is_blank post = true -> rstrip (s ++ post) = rstrip s.
Proof.
  intros Hpost. unfold rstrip. rewrite rev_app_distr, lstrip_blank_app; [reflexivity|].
  now rewrite is_blank_rev.
Qed.

Lemma lstrip_app_blank s post :
  is_blank post = true ->
  exists post', is_blank post' = true /\ lstrip (s ++ post) = lstrip s ++ post'.
Proof.
  intros Hpost. induction s as [|c s IH].
  - exists []. split; [reflexivity|]. simpl.
    rewrite <- (app_nil_r post), lstrip_blank_app by assumption. reflexivity.
  - simpl. destruct (isspace c); [assumption|]. now exists post.
Qed.

(** Whitespace around a text does not change what [strip] gives. *)
Lemma strip_padded pre s post :
  is_blank pre = true -> is_blank post = true ->
  strip (pre ++ s ++ post) = strip s.
Proof.
  intros Hpre Hpost. unfold strip. rewrite lstrip_blank_app by assumption.
  destruct (lstrip_app_blank s post Hpost) as (post' & Hpost' & ->).
  now apply rstrip_app_blank.
Qed.

Lemma strip_fixed s : lstrip s = s -> lstrip (rev s) = rev s -> strip s = s.
Proof.
  intros Hl Hr. unfold strip, rstrip. rewrite Hl, Hr. apply rev_involutive.
Qed.

Lemma is_word_no_space s : is_word s = true -> forallb (fun c => negb (isspace c)) s = true.
Proof. now destruct s. Qed.

Lemma is_word_rev s : is_word s = true -> is_word (rev s) = true.
Proof.
  intros Hs. assert (Hall : forallb (fun c => negb (isspace c)) (rev s) = true).
  { apply is_word_no_space in Hs. apply forallb_forall. intros c Hc%in_rev.
    now apply (proj1 (forallb_forall _ _) Hs). }
  destruct (rev s) eqn:E; [|exact Hall].
  apply (f_equal (@rev ascii)) in E. rewrite rev_involutive in E. now subst s.
Qed.

Lemma lstrip_word s : is_word s = true -> lstrip s = s.
Proof.
  destruct s as [|c s]; [discriminate|]. simpl.
  intros [Hc _]%andb_true_iff. now destruct (isspace c).
Qed.

Lemma strip_word s : is_word s = true -> strip s = s.
Proof.
  intros Hs. apply strip_fixed; [now apply lstrip_word|].
  now apply lstrip_word, is_word_rev.
Qed.

Lemma word_contains_no c s :
  isspace c = true -> is_word s = true -> contains c s = false.
Proof.
  intros Hc Hs%is_word_no_space.
  induction s as [|d s IH]; [reflexivity|].
  simpl in Hs. apply andb_true_iff in Hs as [Hd Hs].
  rewrite contains_cons, (IH Hs), orb_false_r.
  apply chr_eqb_neq. intros <-. now rewrite Hc in Hd.
Qed.

Lemma split_no_sep sep s : contains sep s = false -> split sep s = [s].
Proof.
  induction s as [|c s IH]; [reflexivity|].
  rewrite contains_cons. intros [Hc Hs]%orb_false_iff.
  simpl. now rewrite (chr_eqb_sym_false _ _ Hc), (IH Hs).
Qed.

Lemma split_app_sep sep s rest :
  contains sep s = false -> split sep (s ++ sep :: rest) = s :: split sep rest.
Proof.
  induction s as [|c s IH].
  - intros _. simpl. unfold chr_eqb. now rewrite Ascii.eqb_refl.
  - rewrite contains_cons. intros [Hc Hs]%orb_false_iff.
    simpl. now rewrite (chr_eqb_sym_false _ _ Hc), (IH Hs).
Qed.

(** Joining lines that hold no newline and splitting again gives the lines. *)
Lemma split_join lines :
  lines <> [] ->
  Forall (fun line => contains newline line = false) lines ->
  split newline (join [newline] lines) = lines.
Proof.
  intros Hne Hall. induction Hall as [|line lines Hline Hall IH]; [congruence|].
  destruct lines as [|line' lines].
  - simpl. now apply split_no_sep.
  - change (join [newline] (line :: line' :: lines))
      with (line ++ newline :: join [newline] (line' :: lines)).
    rewrite split_app_sep by assumption. now rewrite IH.
Qed.

Lemma lstrip_word_app x s : is_word x = true -> lstrip (x ++ s) = x ++ s.
Proof.
  destruct x as [|c x]; [discriminate|]. simpl.
  intros [Hc _]%andb_true_iff. now destruct (isspace c).
Qed.

Lemma rstrip_app_word s y : is_word y = true -> rstrip (s ++ y) = s ++ y.
Proof.
  intros Hy%is_word_rev. unfold rstrip.
  rewrite rev_app_distr, lstrip_word_app by assumption.
  now rewrite rev_app_distr, !rev_involutive.
Qed.

Lemma strip_between x mid y :
  is_word x = true -> is_word y = true -> strip (x ++ mid ++ y) = x ++ mid ++ y.
Proof.
  intros Hx Hy. unfold strip. rewrite lstrip_word_app by assumption.
  rewrite app_assoc. now apply rstrip_app_word.
Qed.

(** ** The replacements file, written and read back *)

Lemma entry_space original current : entry original current = original ++ space :: current.
Proof. reflexivity. Qed.

Lemma entry_no_newline pair :
  words pair -> contains newline (entry pair.1 pair.2) = false.
Proof.
  intros [Ho Hn]. rewrite entry_space, contains_app, contains_cons.
  now rewrite !word_contains_no.
Qed.

Lemma serialize_ends pair pairs :
  Forall words (pair :: pairs) ->
  exists mid y, is_word y = true /\ serialize (pair :: pairs) = pair.1 ++ mid ++ y.
Proof.
  revert pair. induction pairs as [|next pairs IH]; intros pair Hall.
  - exists [space], pair.2. apply Forall_inv in Hall as [_ Hn]. now split.
  - apply Forall_cons in Hall as [_ Hall].
    destruct (IH next Hall) as (mid & y & Hy & Hs).
    exists (space :: pair.2 ++ newline :: next.1 ++ mid), y. split; [assumption|].
    change (serialize (pair :: next :: pairs))
      with (entry pair.1 pair.2 ++ newline :: serialize (next :: pairs)).
    rewrite Hs, entry_space, <- !app_assoc. simpl.
    do 2 f_equal. rewrite <- app_assoc. simpl. now rewrite <- app_assoc.
Qed.

Lemma parse_lines_entries pairs :
  Forall words pairs ->
  parse_lines (map (fun pair => entry pair.1 pair.2) pairs) = Ok pairs.
Proof.
  induction 1 as [|[o n] pairs [Ho Hn] _ IH]; [reflexivity|].
  cbn [fst snd map parse_lines] in *.
  rewrite IH, entry_space, parse_line_pair by now apply word_contains_no.
  now rewrite !strip_word.
Qed.

(** What is read from the text that holds [pairs] is [pairs]. *)
Lemma parse_serialize pairs :
  Forall words pairs ->
  parse_lines (split newline (strip (serialize pairs))) = Ok pairs.
Proof.
  intros Hall. destruct pairs as [|pair pairs]; [reflexivity|].
  destruct (serialize_ends pair pairs Hall) as (mid & y & Hy & Hs).
  rewrite Hs, strip_between, <- Hs; [|now apply Forall_inv in Hall as [? _] | assumption].
  unfold serialize. rewrite split_join.
  - now apply parse_lines_entries.
  - discriminate.
  - apply Forall_map. eapply Forall_impl; [exact Hall|].
    intros p Hp. now apply entry_no_newline.
Qed.

(** ** What the pattern of [extract_colors] finds *)

Lemma findall_from_sound s :
  forall st consumed,
    match st with
    | Idle => True
    | SeenQuote => exists p, consumed = p ++ [dquote]
    | SeenHash => exists p, consumed = p ++ [dquote; hash]
    | InHex ds =>
        exists p, consumed = p ++ dquote :: hash :: rev ds
                  /\ ds <> [] /\ forallb ishex ds = true
    end ->
    Forall (fun c => hex_colour c /\
                     exists pre post, consumed ++ s = pre ++ dquote :: c ++ dquote :: post)
           (findall_from st s).
Proof.
  induction s as [|c s IH]; intros st consumed Hst; [constructor|].
  assert (Hnext : forall st',
             match st' with
             | Idle => True
             | SeenQuote => exists p, consumed ++ [c] = p ++ [dquote]
             | SeenHash => exists p, consumed ++ [c] = p ++ [dquote; hash]
             | InHex ds =>
                 exists p, consumed ++ [c] = p ++ dquote :: hash :: rev ds
                           /\ ds <> [] /\ forallb ishex ds = true
             end ->
             Forall (fun col => hex_colour col /\
                       exists pre post,
                         consumed ++ c :: s = pre ++ dquote :: col ++ dquote :: post)
                    (findall_from st' s)).
  { intros st' Hst'. specialize (IH st' (consumed ++ [c]) Hst').
    now rewrite <- app_assoc in IH. }
  assert (Hrestart : Forall (fun col => hex_colour col /\
                       exists pre post,
                         consumed ++ c :: s = pre ++ dquote :: col ++ dquote :: post)
                     (findall_from (if chr_eqb c dquote then SeenQuote else Idle) s)).
  { apply Hnext. destruct (chr_eqb c dquote) eqn:E; [|exact I].
    apply chr_eqb_eq in E as ->. now exists consumed. }
  destruct st as [| | |ds]; cbn [findall_from].
  - exact Hrestart.
  - destruct (chr_eqb c hash) eqn:E; [|exact Hrestart].
    apply chr_eqb_eq in E as ->. destruct Hst as [p ->].
    apply Hnext. exists p. now rewrite <- app_assoc.
  - destruct (ishex c) eqn:E; [|exact Hrestart].
    destruct Hst as [p ->]. apply Hnext. exists p.
    rewrite <- app_assoc. simpl. now rewrite E.
  - destruct Hst as (p & -> & Hds & Hhex).
    destruct (chr_eqb c dquote) eqn:E.
    + apply chr_eqb_eq in E as ->. constructor; [|now apply Hnext].
      split.
      * exists (rev ds). split; [reflexivity|]. split.
        -- intros Hrev. apply (f_equal (@rev ascii)) in Hrev.
           rewrite rev_involutive in Hrev. contradiction.
        -- apply forallb_forall. intros x Hx%in_rev.
           now apply (proj1 (forallb_forall _ _) Hhex).
      * exists p, s. now rewrite <- app_assoc.
    + destruct (ishex c) eqn:Ec; [|now apply Hnext].
      apply Hnext. exists p. rewrite <- app_assoc. simpl.
      rewrite Ec, Hhex. repeat split. discriminate.
Qed.

(** X1 — Every colour that the pattern of [extract_colors] finds is a [#]
    followed by one or more hex digits, and it stands between two double
    quotes in the content. *)
Theorem findall_colors_sound content :
  Forall (fun c => hex_colour c /\
                   exists pre post, content = pre ++ dquote :: c ++ dquote :: post)
         (findall_colors content).
Proof. apply (findall_from_sound content Idle [] I). Qed.

(** ** Substitution: a left side that does not occur, and its case *)

Lemma sub_scan_absent pat repl s :
  ci_occurs pat s = false -> sub_scan pat repl 0 s = s.
Proof.
  induction s as [|c s IH]; [reflexivity|].
  rewrite ci_occurs_cons. intros [Hc Hs]%orb_false_iff.
  rewrite sub_scan_no_match by assumption. now rewrite IH.
Qed.

Lemma sub_literal_absent pat repl s :
  ci_occurs pat s = false -> sub_literal pat repl s = s.
Proof.
  destruct pat as [|p pat]; [now destruct s|]. apply sub_scan_absent.
Qed.

Lemma ci_prefix_case p q s :
  map lower p = map lower q -> ci_prefix p s = ci_prefix q s.
Proof.
  revert q s. induction p as [|a p IH]; intros [|b q] s; try discriminate;
    [reflexivity|].
  intros [= Hab Hpq]. destruct s as [|c s]; [reflexivity|].
  simpl. unfold ci_eqb. now rewrite Hab, (IH q s Hpq).
Qed.

Lemma sub_scan_case p q repl skip s :
  map lower p = map lower q -> sub_scan p repl skip s = sub_scan q repl skip s.
Proof.
  intros Hpq. pose proof (f_equal length Hpq) as Hlen. rewrite !length_map in Hlen.
  revert skip. induction s as [|c s IH]; intros skip; [reflexivity|].
  cbn [sub_scan]. destruct skip; [|apply IH].
  now rewrite (ci_prefix_case p q (c :: s) Hpq), Hlen, !IH.
Qed.

Lemma sub_literal_case p q repl s :
  map lower p = map lower q -> sub_literal p repl s = sub_literal q repl s.
Proof.
  intros Hpq. destruct p, q; try discriminate; [reflexivity|].
  now apply sub_scan_case.
Qed.

(** ** Computations and the file system *)

Lemma silent_of_keeps {A} (m : M A) : (forall p, keeps p m) -> silent m.
Proof. intros Hm w. apply map_eq. intros p. apply Hm. Qed.

Lemma atomic_of_silent {A} (m : M A) : silent m -> atomic m.
Proof. intros Hm w e _. apply Hm. Qed.

Lemma atomic_bind {A B} (m : M A) (k : A -> M B) :
  silent m -> (forall a, atomic (k a)) -> atomic (bind m k).
Proof.
  intros Hm Hk w e. unfold bind. specialize (Hm w).
  destruct (m w) as [[a|e'] w1]; simpl in *; [|now intros _].
  intros Hraise. now rewrite (Hk a w1 e Hraise).
Qed.

Lemma exists_inv p w r w' :
  exists_ p w = (r, w') -> w' = w /\ r = Ok (bool_decide (is_Some (files w !! p))).
Proof. unfold exists_. now intros [= <- <-]. Qed.

Lemma read_text_ok_inv p w content w' :
  read_text p w = (Ok content, w') -> w' = w /\ files w !! p = Some (File content).
Proof.
  unfold read_text. destruct (files w !! p) as [[c|]|]; try discriminate.
  now intros [= <- <-].
Qed.

Lemma write_text_ok_inv p content w u w' :
  write_text p content w = (Ok u, w') ->
  w' = written p content w /\ files w !! p <> Some Dir.
Proof.
  unfold write_text. destruct (files w !! p) as [[c|]|]; try discriminate;
    now intros [= <- <-].
Qed.

Lemma write_text_not_dir p content w :
  files w !! p <> Some Dir -> write_text p content w = (Ok tt, written p content w).
Proof.
  intros Hp. unfold write_text. destruct (files w !! p) as [[c|]|]; congruence.
Qed.

Lemma read_replacements_ok_inv p w pairs w' :
  read_replacements p w = (Ok pairs, w') ->
  w' = w /\ exists mapping,
    files w !! p = Some (File mapping) /\
    parse_lines (split newline (strip mapping)) = Ok pairs.
Proof.
  unfold read_replacements.
  intros (mapping & w1 & [-> Hfile]%read_text_ok_inv & Hparse)%bind_ok_inv.
  unfold lift in Hparse. injection Hparse as Hparse <-. eauto.
Qed.

Lemma constant_for_each {A B} (f : A -> M B) xs :
  (forall x, constant (f x)) -> constant (for_each f xs).
Proof.
  intros Hf. induction xs as [|x xs IH]; simpl.
  - apply constant_ret.
  - apply constant_bind; [apply Hf | intros y].
    apply constant_bind; [apply IH | intros ys; apply constant_ret].
Qed.

Lemma constant_lift {A} (r : result A) : constant (lift r).
Proof. now intros w w'. Qed.

(** A computation that is constant and silent gives, in any two worlds,
    the same outcome and leaves each file system as it was. *)
Lemma constant_silent_run {A} (m : M A) w w0 r w1 :
  constant m -> silent m -> m w0 = (r, w1) ->
  exists w2, m w = (r, w2) /\ files w2 = files w.
Proof.
  intros Hc Hs H0. specialize (Hc w w0). specialize (Hs w).
  rewrite H0 in Hc. destruct (m w) as [r' w2]. simpl in *. subst r'. eauto.
Qed.

(** Two computations with the same outcome, continued alike. *)
Lemma bind_same_outcome {A B} (m m' : M A) (k : A -> M B) w w' :
  (m w).1 = (m' w').1 -> (forall a, constant (k a)) ->
  (bind m k w).1 = (bind m' k w').1.
Proof.
  intros Hm Hk. unfold bind.
  destruct (m w) as [[a|e] w1], (m' w') as [[a'|e'] w1']; simpl in *;
    try congruence.
  injection Hm as ->. apply Hk.
Qed.

(** ** The functions of the script, further *)

Section MoreScriptFacts.
Context {tool : External} {process : Process}.

#[local] Hint Resolve keeps_subprocess_run keeps_format_hex keeps_extract_colors
  keeps_read_replacements keeps_apply_color_replacement keeps_apply_replacements
  keeps_run_pastel_command keeps_transform keeps_process_pair : keeps.

Lemma print_ok_inv e w u w' :
  print e w = (Ok u, w') -> renders e = true /\ w' = say e w.
Proof. unfold print. destruct (renders e); [|discriminate]. now intros [= <-]. Qed.

Lemma print_raise_inv e w x w' :
  print e w = (Raise x, w') -> x = MarkupError e /\ renders e = false.
Proof. unfold print. destruct (renders e); [discriminate|]. now intros [= <- _]. Qed.

Lemma atomic_write_print p content e :
  renders e = true -> atomic (write_text p content;;; print e).
Proof.
  intros He w e'. unfold bind, write_text, print. rewrite He.
  destruct (files w !! p) as [[]|]; simpl; try discriminate. reflexivity.
Qed.

Lemma silent_extract_colors content : silent (extract_colors content).
Proof. apply silent_of_keeps. intros p. apply keeps_extract_colors. Qed.

Lemma silent_apply_replacements pairs content :
  silent (apply_replacements pairs content).
Proof. apply silent_of_keeps. intros p. apply keeps_apply_replacements. Qed.

Lemma constant_after_sorting hue_sorted :
  constant
    (let* lum_out :=
       subprocess_run [t "pastel"; t "sort-by"; t "luminance"]
                      (Some (join [newline] hue_sorted)) in
     for_each format_hex
       (filter (fun color => color <> []) (split newline (strip lum_out)))).
Proof.
  apply constant_bind; [apply constant_subprocess_run | intros lum_out].
  apply constant_for_each. intros color. apply constant_format_hex.
Qed.

Lemma constant_extract_colors content : constant (extract_colors content).
Proof.
  unfold extract_colors. destruct (set_order (findall_colors content)).
  - apply constant_ret.
  - apply constant_bind; [apply constant_subprocess_run | intros hue_out].
    apply constant_after_sorting.
Qed.

Lemma constant_apply_color_replacement content old new :
  constant (apply_color_replacement content old new).
Proof.
  unfold apply_color_replacement. destruct (bool_decide (old = new)).
  - apply constant_ret.
  - apply constant_bind; [apply constant_print | intros _].
    apply constant_bind; [apply constant_lift | intros repl; apply constant_ret].
Qed.

Lemma constant_apply_replacements pairs content :
  constant (apply_replacements pairs content).
Proof.
  apply constant_reduce. intros acc pair. apply constant_apply_color_replacement.
Qed.

(** X2 — The original copy and the replacements file lie in the directory
    of the theme file, and the three paths are different from one another
    whatever the name of the theme file. *)
Theorem get_paths_three_siblings theme_file :
  parent (get_paths theme_file).1 = parent theme_file
  /\ parent (get_paths theme_file).2 = parent theme_file
  /\ (get_paths theme_file).1 <> theme_file
  /\ (get_paths theme_file).2 <> theme_file
  /\ (get_paths theme_file).1 <> (get_paths theme_file).2.
Proof.
  repeat split.
  - apply og_file_fresh.
  - apply replacements_file_fresh.
  - apply og_file_not_replacements.
Qed.

(** *** Extraction without colours *)

Lemma set_order_nil : set_order [] = [].
Proof. apply Permutation_nil. symmetry. apply (set_order_perm []). Qed.

(** X3 — Where the pattern finds no colour, extraction returns the empty
    list without starting any process; the first [init] of such a theme,
    the console accepting its two lines, takes the snapshot and writes an
    empty replacements file. *)
Theorem extraction_without_colours content :
  findall_colors content = [] ->
  (forall w, extract_colors content w = (Ok [], w))
  /\ (forall theme_file w,
        files w !! theme_file = Some (File content) ->
        files w !! (get_paths theme_file).1 = None ->
        files w !! (get_paths theme_file).2 <> Some Dir ->
        renders (SavedOriginal (get_paths theme_file).1) = true ->
        renders (InitializedReplacements (get_paths theme_file).2) = true ->
        init theme_file w
        = (Ok tt,
           say (InitializedReplacements (get_paths theme_file).2)
             (written (get_paths theme_file).2 []
                (say (SavedOriginal (get_paths theme_file).1)
                   (written (get_paths theme_file).1 content w))))).
Proof.
  intros Hnone.
  assert (Hextract : forall w, extract_colors content w = (Ok [], w)).
  { intros w. unfold extract_colors. now rewrite Hnone, set_order_nil. }
  split; [exact Hextract|].
  intros theme_file w Htheme Hog Hrep Hsaved Hinitialized. unfold init.
  rewrite (bind_ok _ _ _ _ _ (exists_found _ _ _ Htheme)). cbn [negb].
  destruct (get_paths theme_file) as [og_file replacements_file] eqn:Epaths.
  cbn [fst snd] in *.
  rewrite (bind_ok _ _ _ _ _ (exists_missing _ _ Hog)). cbn [negb].
  rewrite (bind_ok _ _ w tt (say (SavedOriginal og_file) (written og_file content w))).
  - assert (Hread : read_text og_file (say (SavedOriginal og_file)
                                         (written og_file content w))
                    = (Ok content, say (SavedOriginal og_file)
                                       (written og_file content w))).
    { apply read_text_file. simpl. apply lookup_insert_eq. }
    rewrite (bind_ok _ _ _ _ _ Hread).
    rewrite (bind_ok _ _ _ _ _ (Hextract _)).
    rewrite (bind_ok _ _ _ tt
               (written replacements_file []
                  (say (SavedOriginal og_file) (written og_file content w)))).
    + now apply print_accepted.
    + apply write_text_not_dir. simpl. rewrite lookup_insert_ne; [assumption|].
      pose proof (og_file_not_replacements theme_file) as Hne.
      now rewrite Epaths in Hne.
  - rewrite (bind_ok _ _ _ _ _ (read_text_file _ _ _ Htheme)).
    rewrite (bind_ok _ _ _ tt (written og_file content w)).
    + now apply print_accepted.
    + apply write_text_not_dir. now rewrite Hog.
Qed.

(** *** The replacements file, written and read back *)

(** X4 — A mapping of pairs of words (non-empty, without whitespace),
    written to the replacements file one [original current] line per
    pair, is read back as the same pairs in the same order. *)
Theorem mapping_round_trip replacements_file pairs w :
  files w !! replacements_file <> Some Dir ->
  Forall words pairs ->
  (write_text replacements_file (serialize pairs);;;
   read_replacements replacements_file) w
  = (Ok pairs, written replacements_file (serialize pairs) w).
Proof.
  intros Hfile Hwords.
  rewrite (bind_ok _ _ _ _ _ (write_text_not_dir _ (serialize pairs) _ Hfile)).
  apply (read_replacements_file _ (serialize pairs)).
  - simpl. apply lookup_insert_eq.
  - now apply parse_serialize.
Qed.

(** X5 — Whitespace before and after the text of the replacements file,
    a final newline for one, does not change the pairs that are read. *)
Theorem read_replacements_ignores_padding replacements_file mapping before after w w' :
  is_blank before = true -> is_blank after = true ->
  files w !! replacements_file = Some (File mapping) ->
  files w' !! replacements_file = Some (File (before ++ mapping ++ after)) ->
  (read_replacements replacements_file w').1 = (read_replacements replacements_file w).1.
Proof.
  intros Hb Ha Hw Hw'. unfold read_replacements.
  rewrite (bind_ok _ _ _ _ _ (read_text_file _ _ _ Hw)).
  rewrite (bind_ok _ _ _ _ _ (read_text_file _ _ _ Hw')).
  unfold lift. simpl. now rewrite strip_padded.
Qed.

(** *** Substitution *)

(** X6 — A pair whose line the console accepts and whose left side does
    not occur in the content, in any case, returns the content as it is;
    the pair is printed all the same. *)
Theorem apply_color_replacement_absent content old new w :
  old <> new -> contains backslash new = false ->
  renders (Replacing old new) = true ->
  ci_occurs old content = false ->
  apply_color_replacement content old new w = (Ok content, say (Replacing old new) w).
Proof.
  intros Hne Hnew Hline Habsent.
  rewrite apply_color_replacement_literal by assumption.
  now rewrite sub_literal_absent.
Qed.

(** X7 — The case of the left side of a pair does not matter to the
    substitution: two left sides that are equal up to case, with lines
    that the console accepts, give the same result on every content. *)
Theorem apply_color_replacement_any_case content old old' new w :
  map lower old = map lower old' -> old <> new -> old' <> new ->
  renders (Replacing old new) = true -> renders (Replacing old' new) = true ->
  (apply_color_replacement content old new w).1
  = (apply_color_replacement content old' new w).1.
Proof.
  intros Hcase Hne Hne' Hline Hline'. unfold apply_color_replacement, re_sub_escaped.
  rewrite !bool_decide_eq_false_2 by assumption.
  rewrite (bind_ok _ _ _ _ _ (print_accepted _ w Hline)).
  rewrite (bind_ok _ _ _ _ _ (print_accepted _ w Hline')).
  unfold bind, lift, ret.
  destruct (compile_template new) as [repl|e]; [|reflexivity].
  simpl. now rewrite (sub_literal_case old old' repl content Hcase).
Qed.

(** *** [apply] *)

(** What is left to [apply] once it has written the theme file. *)
Lemma apply_prints_last theme_file w content mapping pairs final w' :
  is_Some (files w !! theme_file) ->
  files w !! (get_paths theme_file).1 = Some (File content) ->
  files w !! (get_paths theme_file).2 = Some (File mapping) ->
  parse_lines (split newline (strip mapping)) = Ok pairs ->
  apply_replacements pairs content w = (Ok final, w') ->
  files w' !! theme_file <> Some Dir ->
  apply theme_file w
  = print (AppliedReplacements theme_file) (written theme_file final w').
Proof.
  intros [nd Htheme] Hog Hrep Hpairs Hfold Hdir. unfold apply.
  rewrite (bind_ok _ _ _ _ _ (exists_found _ _ _ Htheme)). cbn [negb get_paths].
  rewrite (bind_ok _ _ _ _ _ (exists_found _ _ _ Hrep)). cbn [negb].
  rewrite (bind_ok _ _ _ _ _ (read_text_file _ _ _ Hog)).
  rewrite (bind_ok _ _ _ _ _ (read_replacements_file _ _ _ _ Hrep Hpairs)).
  rewrite (bind_ok _ _ _ _ _ Hfold).
  now rewrite (bind_ok _ _ _ _ _ (write_text_not_dir _ final _ Hdir)).
Qed.

Lemma apply_ok_intro theme_file w content mapping pairs final w' :
  is_Some (files w !! theme_file) ->
  files w !! (get_paths theme_file).1 = Some (File content) ->
  files w !! (get_paths theme_file).2 = Some (File mapping) ->
  parse_lines (split newline (strip mapping)) = Ok pairs ->
  apply_replacements pairs content w = (Ok final, w') ->
  files w' !! theme_file <> Some Dir ->
  renders (AppliedReplacements theme_file) = true ->
  apply theme_file w
  = (Ok tt, say (AppliedReplacements theme_file) (written theme_file final w')).
Proof.
  intros Htheme Hog Hrep Hpairs Hfold Hdir Hline.
  rewrite (apply_prints_last _ _ _ _ _ _ _ Htheme Hog Hrep Hpairs Hfold Hdir).
  now apply print_accepted.
Qed.

Lemma apply_ok_inv theme_file w u w1 :
  apply theme_file w = (Ok u, w1) ->
  exists content mapping pairs final w',
    is_Some (files w !! theme_file)
    /\ files w !! (get_paths theme_file).1 = Some (File content)
    /\ files w !! (get_paths theme_file).2 = Some (File mapping)
    /\ parse_lines (split newline (strip mapping)) = Ok pairs
    /\ apply_replacements pairs content w = (Ok final, w')
    /\ files w' !! theme_file <> Some Dir
    /\ renders (AppliedReplacements theme_file) = true
    /\ w1 = say (AppliedReplacements theme_file) (written theme_file final w').
Proof.
  unfold apply.
  intros (b & w0 & [-> Hb]%exists_inv & Hrest)%bind_ok_inv.
  injection Hb as ->.
  destruct (bool_decide (is_Some (files w !! theme_file))) eqn:Etheme;
    [|discriminate]. apply bool_decide_eq_true in Etheme.
  cbn [negb get_paths] in Hrest.
  apply bind_ok_inv in Hrest as (b & w0 & [-> Hb]%exists_inv & Hrest).
  injection Hb as ->.
  match type of Hrest with
  | context [bool_decide ?P] => destruct (bool_decide P) eqn:Erep; [|discriminate]
  end.
  cbn [negb] in Hrest.
  apply bind_ok_inv in Hrest as (content & w0 & [-> Hog]%read_text_ok_inv & Hrest).
  apply bind_ok_inv in Hrest
    as (pairs & w0 & [-> (mapping & Hrep & Hpairs)]%read_replacements_ok_inv & Hrest).
  apply bind_ok_inv in Hrest as (final & w' & Hfold & Hrest).
  apply bind_ok_inv in Hrest as (u' & w2 & [-> Hdir]%write_text_ok_inv & Hrest).
  apply print_ok_inv in Hrest as [Hline ->].
  exists content, mapping, pairs, final, w'. repeat split; assumption.
Qed.

(** X8 — On a console that accepts its last line, [apply] is all or
    nothing on the file system: when it raises, every file is as it was.
    In every case, every path other than the theme file is as it was. *)
Theorem apply_all_or_nothing theme_file w :
  (renders (AppliedReplacements theme_file) = true ->
   forall e, (apply theme_file w).1 = Raise e ->
             files (apply theme_file w).2 = files w)
  /\ (forall p, p <> theme_file ->
                files (apply theme_file w).2 !! p = files w !! p).
Proof.
  split; [|intros p Hp; now apply keeps_apply].
  intros Hline. revert w. change (atomic (apply theme_file)). unfold apply.
  apply atomic_bind; [apply silent_of_keeps; intros p; keeps | intros [|]];
    cbn [negb get_paths]; [|apply atomic_of_silent, silent_of_keeps; intros p; keeps].
  apply atomic_bind; [apply silent_of_keeps; intros p; keeps | intros [|]];
    cbn [negb]; [|apply atomic_of_silent, silent_of_keeps; intros p; keeps].
  apply atomic_bind; [apply silent_of_keeps; intros p; keeps | intros content].
  apply atomic_bind; [apply silent_of_keeps; intros p; keeps | intros pairs].
  apply atomic_bind; [apply silent_apply_replacements | intros final].
  now apply atomic_write_print.
Qed.

(** X9 — [apply] is idempotent: after an [apply] that has succeeded, a
    second one succeeds and leaves every file as the first has left it. *)
Theorem apply_idempotent theme_file w w1 :
  apply theme_file w = (Ok tt, w1) ->
  exists w2, apply theme_file w1 = (Ok tt, w2) /\ files w2 = files w1.
Proof.
  intros (content & mapping & pairs & final & w' & Htheme & Hog & Hrep & Hpairs
          & Hfold & Hdir & Hline & ->)%apply_ok_inv.
  pose proof (silent_apply_replacements pairs content w) as Hsilent.
  rewrite Hfold in Hsilent. cbn [snd] in Hsilent.
  set (w1 := say (AppliedReplacements theme_file) (written theme_file final w')).
  assert (Hfiles : files w1 = <[theme_file := File final]> (files w))
    by (simpl; now rewrite Hsilent).
  destruct (constant_silent_run _ w1 w _ _
              (constant_apply_replacements pairs content)
              (silent_apply_replacements pairs content) Hfold)
    as (w2 & Hfold2 & Hfiles2).
  exists (say (AppliedReplacements theme_file) (written theme_file final w2)).
  split.
  - apply (apply_ok_intro _ _ content mapping pairs); try assumption.
    + rewrite Hfiles, lookup_insert_eq. eauto.
    + rewrite Hfiles, lookup_insert_ne; [assumption|].
      intros Heq. now apply (og_file_fresh theme_file).
    + rewrite Hfiles, lookup_insert_ne; [assumption|].
      intros Heq. now apply (replacements_file_fresh theme_file).
    + rewrite Hfiles2, Hfiles, lookup_insert_eq. discriminate.
  - change (<[theme_file := File final]> (files w2) = files w1).
    rewrite Hfiles2, Hfiles. apply insert_insert_eq.
Qed.

(** *** [init] *)

Lemma init_from_copy (run_process : Process) theme_file w og_content colors wb :
  is_Some (files w !! theme_file) ->
  files w !! (get_paths theme_file).1 = Some (File og_content) ->
  @extract_colors tool run_process og_content w = (Ok colors, wb) ->
  files wb !! (get_paths theme_file).2 <> Some Dir ->
  renders (InitializedReplacements (get_paths theme_file).2) = true ->
  @init tool run_process theme_file w
  = (Ok tt,
     say (InitializedReplacements (get_paths theme_file).2)
       (written (get_paths theme_file).2
          (join [newline] (map (fun color => entry color color) colors)) wb)).
Proof.
  intros [nd Htheme] Hog Hextract Hdir Hline. unfold init.
  rewrite (bind_ok _ _ _ _ _ (exists_found _ _ _ Htheme)). cbn [negb].
  destruct (get_paths theme_file) as [og_file replacements_file].
  cbn [fst snd] in *.
  rewrite (bind_ok _ _ _ _ _ (exists_found _ _ _ Hog)). cbn [negb].
  rewrite (bind_ok _ _ w tt w) by reflexivity.
  rewrite (bind_ok _ _ _ _ _ (read_text_file _ _ _ Hog)).
  rewrite (bind_ok _ _ _ _ _ Hextract).
  rewrite (bind_ok _ _ _ _ _ (write_text_not_dir _ _ _ Hdir)).
  now apply print_accepted.
Qed.

Lemma init_ok_inv theme_file w u w1 :
  init theme_file w = (Ok u, w1) ->
  exists og_content colors wa wb,
    is_Some (files w !! theme_file)
    /\ files wa !! (get_paths theme_file).1 = Some (File og_content)
    /\ (forall p, p <> (get_paths theme_file).1 -> files wa !! p = files w !! p)
    /\ (files w !! (get_paths theme_file).1 = None ->
        files w !! theme_file = Some (File og_content))
    /\ extract_colors og_content wa = (Ok colors, wb)
    /\ files wb !! (get_paths theme_file).2 <> Some Dir
    /\ renders (InitializedReplacements (get_paths theme_file).2) = true
    /\ w1 = say (InitializedReplacements (get_paths theme_file).2)
              (written (get_paths theme_file).2
                 (join [newline] (map (fun color => entry color color) colors)) wb).
Proof.
  unfold init.
  intros (b & w0 & [-> Hb]%exists_inv & Hrest)%bind_ok_inv.
  injection Hb as ->.
  destruct (bool_decide (is_Some (files w !! theme_file))) eqn:Etheme;
    [|discriminate]. apply bool_decide_eq_true in Etheme.
  cbn [negb] in Hrest.
  destruct (get_paths theme_file) as [og_file replacements_file].
  cbn [fst snd].
  apply bind_ok_inv in Hrest as (b & w0 & [-> Hb]%exists_inv & Hrest).
  injection Hb as ->.
  apply bind_ok_inv in Hrest as (u0 & wa & Hsnapshot & Hrest).
  apply bind_ok_inv in Hrest as (og_content & w0 & [-> Hog]%read_text_ok_inv & Hrest).
  apply bind_ok_inv in Hrest as (colors & wb & Hextract & Hrest).
  apply bind_ok_inv in Hrest as (u1 & w2 & [-> Hdir]%write_text_ok_inv & Hrest).
  apply print_ok_inv in Hrest as [Hline ->].
  exists og_content, colors, wa, wb.
  destruct (bool_decide (is_Some (files w !! og_file))) eqn:Eog; cbn [negb] in Hsnapshot.
  - injection Hsnapshot as _ <-. apply bool_decide_eq_true in Eog.
    repeat split; try assumption; try reflexivity.
    intros Hnone. rewrite Hnone in Eog. now destruct Eog.
  - apply bool_decide_eq_false in Eog.
    apply bind_ok_inv in Hsnapshot
      as (content & w0 & [-> Htheme]%read_text_ok_inv & Hsnapshot).
    apply bind_ok_inv in Hsnapshot as (u2 & w3 & [-> _]%write_text_ok_inv & Hsnapshot).
    apply print_ok_inv in Hsnapshot as [_ ->].
    simpl in Hog. rewrite lookup_insert_eq in Hog. injection Hog as <-.
    repeat split; try assumption.
    + simpl. apply lookup_insert_eq.
    + intros p Hp. simpl. now rewrite lookup_insert_ne.
    + now intros _.
Qed.

Lemma subprocess_run_same_outcome argv input input' w w' :
  spawn argv input = spawn argv input' ->
  (subprocess_run argv input w).1 = (subprocess_run argv input' w').1.
Proof.
  intros Hspawn. unfold subprocess_run. rewrite Hspawn.
  destruct (spawn argv input') as [rc out|]; [destruct (rc =? 0)%Z|]; reflexivity.
Qed.

(** Extraction in another run of the interpreter, where the set is
    iterated in another order that the hue sort answers in the same way. *)
Lemma extract_colors_other_order (again : Process) content w w' :
  spawn [t "pastel"; t "sort-by"; t "hue"]
        (Some (join [newline] (@set_order process (findall_colors content))))
  = spawn [t "pastel"; t "sort-by"; t "hue"]
          (Some (join [newline] (@set_order again (findall_colors content)))) ->
  (@extract_colors tool again content w').1 = (@extract_colors tool process content w).1.
Proof.
  intros Hsame. unfold extract_colors.
  pose proof (@set_order_perm process (findall_colors content)) as Hperm.
  pose proof (@set_order_perm again (findall_colors content)) as Hperm'.
  rewrite <- Hperm' in Hperm. clear Hperm'.
  remember (@set_order process (findall_colors content)) as here eqn:Ehere.
  remember (@set_order again (findall_colors content)) as there eqn:Ethere.
  clear Ehere Ethere. destruct here as [|c l], there as [|c' l'].
  - reflexivity.
  - now apply Permutation_nil_cons in Hperm.
  - symmetry in Hperm. now apply Permutation_nil_cons in Hperm.
  - apply bind_same_outcome.
    + apply subprocess_run_same_outcome. now symmetry.
    + intros hue_out. apply constant_after_sorting.
Qed.


Lemma init_mapping_serialize colors :
  join [newline] (map (fun color => entry color color) colors)
  = serialize (map (fun color => (color, color)) colors).
Proof. unfold serialize. now rewrite map_map. Qed.

(** X11 — After an [init] that has succeeded and has written the
    identity mapping of colours that are words, [apply] writes the text
    of the original copy to the theme file, and succeeds when the console
    accepts its last line; when [init] has taken the snapshot itself, that
    is the text the theme file had. *)
Theorem init_then_apply theme_file w w1 previous colors :
  files w !! theme_file = Some (File previous) ->
  init theme_file w = (Ok tt, w1) ->
  files w1 !! (get_paths theme_file).2
  = Some (File (join [newline] (map (fun color => entry color color) colors))) ->
  Forall (fun color => is_word color = true) colors ->
  exists og_content,
    files w1 !! (get_paths theme_file).1 = Some (File og_content)
    /\ (files w !! (get_paths theme_file).1 = None -> og_content = previous)
    /\ files (apply theme_file w1).2 !! theme_file = Some (File og_content)
    /\ (renders (AppliedReplacements theme_file) = true ->
        apply theme_file w1
        = (Ok tt, say (AppliedReplacements theme_file)
                      (written theme_file og_content w1))).
Proof.
  intros Hprevious Hinit Hmapping Hwords.
  pose proof Hinit
    as (og_content & found & wa & wb & _ & Hog & Hframe & Hfirst & Hextract
        & _ & _ & Hw1)%init_ok_inv.
  pose proof (silent_extract_colors og_content wa) as Hsilent.
  rewrite Hextract in Hsilent. cbn [snd] in Hsilent.
  assert (Hog1 : files w1 !! (get_paths theme_file).1 = Some (File og_content)).
  { rewrite Hw1. simpl. rewrite lookup_insert_ne, Hsilent; [assumption|].
    intros Heq. now apply (og_file_not_replacements theme_file). }
  assert (Htheme1 : files w1 !! theme_file = Some (File previous)).
  { rewrite Hw1. simpl. rewrite lookup_insert_ne, Hsilent, Hframe; [assumption| |].
    - intros Heq. now apply (og_file_fresh theme_file).
    - apply replacements_file_fresh. }
  assert (Happly : apply theme_file w1
                   = print (AppliedReplacements theme_file)
                           (written theme_file og_content w1)).
  { apply (apply_prints_last theme_file w1 og_content
             (join [newline] (map (fun color => entry color color) colors))
             (map (fun color => (color, color)) colors) og_content w1);
      try assumption.
    - rewrite Htheme1. eauto.
    - rewrite init_mapping_serialize. apply parse_serialize.
      apply Forall_map. eapply Forall_impl; [exact Hwords|]. now intros c Hc.
    - apply apply_replacements_identity. apply Forall_map.
      apply Forall_forall. reflexivity.
    - rewrite Htheme1. discriminate. }
  exists og_content. split; [assumption | split; [|split]].
  - intros Hnone. specialize (Hfirst Hnone). congruence.
  - rewrite Happly, (keeps_print theme_file). apply lookup_insert_eq.
  - intros Hline. rewrite Happly. now apply print_accepted.
Qed.

(** X12 — [init] takes the snapshot before it extracts the colours: when
    the extraction of a first [init] raises, [init] raises as well, the
    same error if the console has accepted the line of the snapshot, and
    the original copy, and nothing else, has been written. *)
Theorem init_keeps_snapshot_on_failure theme_file w content e w' :
  files w !! theme_file = Some (File content) ->
  files w !! (get_paths theme_file).1 = None ->
  extract_colors content
    (say (SavedOriginal (get_paths theme_file).1)
       (written (get_paths theme_file).1 content w))
  = (Raise e, w') ->
  (exists raised, (init theme_file w).1 = Raise raised)
  /\ files (init theme_file w).2
     = <[(get_paths theme_file).1 := File content]> (files w)
  /\ (renders (SavedOriginal (get_paths theme_file).1) = true ->
      init theme_file w = (Raise e, w')
      /\ files w' = <[(get_paths theme_file).1 := File content]> (files w)).
Proof.
  intros Htheme Hog Hextract.
  pose proof (silent_extract_colors content
                (say (SavedOriginal (get_paths theme_file).1)
                   (written (get_paths theme_file).1 content w))) as Hsilent.
  rewrite Hextract in Hsilent. cbn [snd] in Hsilent.
  assert (Hinit : init theme_file w
                  = if renders (SavedOriginal (get_paths theme_file).1)
                    then (Raise e, w')
                    else (Raise (MarkupError (SavedOriginal (get_paths theme_file).1)),
                          written (get_paths theme_file).1 content w)).
  { unfold init.
    rewrite (bind_ok _ _ _ _ _ (exists_found _ _ _ Htheme)). cbn [negb].
    destruct (get_paths theme_file) as [og_file replacements_file].
    cbn [fst snd] in *.
    rewrite (bind_ok _ _ _ _ _ (exists_missing _ _ Hog)). cbn [negb].
    assert (Hwrite : write_text og_file content w = (Ok tt, written og_file content w))
      by (apply write_text_not_dir; now rewrite Hog).
    destruct (renders (SavedOriginal og_file)) eqn:Hline.
    - rewrite (bind_ok _ _ w tt (say (SavedOriginal og_file) (written og_file content w))).
      + assert (Hread : read_text og_file (say (SavedOriginal og_file)
                                             (written og_file content w))
                        = (Ok content, say (SavedOriginal og_file)
                                           (written og_file content w))).
        { apply read_text_file. simpl. apply lookup_insert_eq. }
        rewrite (bind_ok _ _ _ _ _ Hread).
        now rewrite (bind_raise _ _ _ _ _ Hextract).
      + rewrite (bind_ok _ _ _ _ _ (read_text_file _ _ _ Htheme)).
        rewrite (bind_ok _ _ _ _ _ Hwrite). now apply print_accepted.
    - rewrite (bind_raise _ _ w (MarkupError (SavedOriginal og_file))
                 (written og_file content w)); [reflexivity|].
      rewrite (bind_ok _ _ _ _ _ (read_text_file _ _ _ Htheme)).
      rewrite (bind_ok _ _ _ _ _ Hwrite). now apply print_rejected. }
  rewrite Hinit. destruct (renders (SavedOriginal (get_paths theme_file).1)).
  - repeat split; eauto.
  - repeat split; eauto. discriminate.
Qed.

(** *** The transform pipeline *)

Lemma subprocess_run_raise_inv argv input w e w' :
  subprocess_run argv input w = (Raise e, w') ->
  (exists rc, e = CalledProcessError argv rc)
  \/ (e = OSError argv /\ spawn argv input = NotStarted).
Proof.
  unfold subprocess_run. destruct (spawn argv input) as [rc out|];
    [destruct (rc =? 0)%Z|]; intros [= <- _]; eauto.
Qed.

Lemma handler_raise_inv command color caught w e :
  ((print (PastelError command color caught);;; ret color) w).1 = Raise e ->
  exists line, e = MarkupError line /\ renders line = false.
Proof.
  unfold bind, print.
  destruct (renders (PastelError command color caught)) eqn:Hline; [discriminate|].
  intros [= <-]. eauto.
Qed.

Lemma run_pastel_command_raise_inv color command w e :
  (run_pastel_command color command w).1 = Raise e ->
  (exists argv input, e = OSError argv /\ spawn argv input = NotStarted)
  \/ (exists line, e = MarkupError line /\ renders line = false).
Proof.
  unfold run_pastel_command, try_except_called_process_error.
  destruct (subprocess_run ([t "pastel"] ++ split_ws command ++ [color]) None w)
    as [[out|e1] w1] eqn:E1.
  - rewrite (bind_ok _ _ _ _ _ E1). unfold format_hex.
    destruct (subprocess_run [t "pastel"; t "format"; t "hex"] (Some (strip out)) w1)
      as [[out2|e2] w2] eqn:E2.
    + rewrite (bind_ok _ _ _ _ _ E2). discriminate.
    + rewrite (bind_raise _ _ _ _ _ E2).
      apply subprocess_run_raise_inv in E2 as [[rc ->] | [-> Hspawn]].
      * intros Hraise%handler_raise_inv. now right.
      * intros [= <-]. left. eauto.
  - rewrite (bind_raise _ _ _ _ _ E1).
    apply subprocess_run_raise_inv in E1 as [[rc ->] | [-> Hspawn]].
    + intros Hraise%handler_raise_inv. now right.
    + intros [= <-]. left. eauto.
Qed.

Lemma transform_cons command later current w :
  transform (command :: later) current w
  = match run_pastel_command current command w with
    | (Ok result, w1) =>
        if renders (Arrow result) then transform later result (say (Arrow result) w1)
        else (Raise (MarkupError (Arrow result)), w1)
    | (Raise e, w1) => (Raise e, w1)
    end.
Proof.
  unfold transform. simpl. unfold bind at 1 2.
  destruct (run_pastel_command current command w) as [[result|e] w1];
    [|reflexivity].
  unfold bind, print. now destruct (renders (Arrow result)).
Qed.

(** X13 — A process that exits with a non-zero status is never what the
    pipeline raises: [transform] raises only when the tool cannot be run
    or the console rejects a line. *)
Theorem transform_raises_no_exit_status pastel_commands current w e :
  (transform pastel_commands current w).1 = Raise e ->
  (exists argv input, e = OSError argv /\ spawn argv input = NotStarted)
  \/ (exists line, e = MarkupError line /\ renders line = false).
Proof.
  revert current w. induction pastel_commands as [|command later IH];
    intros current w; [discriminate|].
  rewrite transform_cons.
  destruct (run_pastel_command current command w) as [[result|e'] w1] eqn:E.
  - destruct (renders (Arrow result)) eqn:Hline; [apply IH|].
    intros [= <-]. right. eauto.
  - simpl. intros [= <-]. apply (run_pastel_command_raise_inv current command w).
    now rewrite E.
Qed.

(** X14 — A command that succeeds but whose output the hex formatter
    rejects with a non-zero status is absorbed as well: the step prints an
    error under the name of the command, which the console accepts, and
    returns the colour it was given. *)
Theorem format_failure_absorbed color command out rc formatted w :
  let argv := [t "pastel"] ++ split_ws command ++ [color] in
  let format := [t "pastel"; t "format"; t "hex"] in
  spawn argv None = Completed 0 out ->
  spawn format (Some (strip out)) = Completed rc formatted ->
  rc <> 0%Z ->
  renders (PastelError command color (CalledProcessError format rc)) = true ->
  run_pastel_command color command w
  = (Ok color,
     say (PastelError command color (CalledProcessError format rc))
       (started (mkCall format (Some (strip out)) (Completed rc formatted))
          (started (mkCall argv None (Completed 0 out)) w))).
Proof.
  intros argv format Hout Hformat Hrc Hline.
  unfold run_pastel_command, try_except_called_process_error, format_hex.
  fold argv.
  rewrite (bind_ok _ _ _ _ _ (subprocess_run_completed _ _ _ _ _ Hout)).
  rewrite (bind_raise _ _ _ (CalledProcessError format rc)
             (started (mkCall format (Some (strip out)) (Completed rc formatted))
                (started (mkCall argv None (Completed 0 out)) w))).
  - now rewrite (bind_ok _ _ _ _ _ (print_accepted _ _ Hline)).
  - fold format. rewrite (subprocess_run_completed _ _ _ _ _ Hformat).
    apply Z.eqb_neq in Hrc. now rewrite Hrc.
Qed.

(** X16 — The pipeline composes: the commands of two lists in a row act
    as the first list followed by the second on its result. *)
Theorem transform_app first later current w :
  transform (first ++ later) current w
  = bind (transform first current) (transform later) w.
Proof. apply reduce_app. Qed.

(** X15 — Without a replacements file, [apply] (the theme file being
    there) and [run] raise the error that asks for [init]; nothing is
    printed, started or written. *)
Theorem missing_replacements_rejected theme_file pastel_commands w :
  files w !! (get_paths theme_file).2 = None ->
  (is_Some (files w !! theme_file) ->
   apply theme_file w
   = (Raise (BadParameter (ReplacementsNotFound (get_paths theme_file).2)), w))
  /\ run theme_file pastel_commands w
     = (Raise (BadParameter (ReplacementsNotFound (get_paths theme_file).2)), w).
Proof.
  intros Hmissing. split.
  - intros [nd Htheme]. unfold apply.
    rewrite (bind_ok _ _ _ _ _ (exists_found _ _ _ Htheme)). cbn [negb get_paths].
    now rewrite (bind_ok _ _ _ _ _ (exists_missing _ _ Hmissing)).
  - unfold run. cbn [get_paths].
    now rewrite (bind_ok _ _ _ _ _ (exists_missing _ _ Hmissing)).
Qed.

End MoreScriptFacts.

(** ** The further properties at work *)

Lemma extraction_without_colours_witness :
  let w := world_of [(theme_json, File (t "{}"))] in
  @extract_colors demo demo_process (t "{}") w = (Ok [], w)
  /\ files (@init demo demo_process theme_json w).2 !! replacements_txt
     = Some (File []).
Proof.
  intros w.
  destruct (@extraction_without_colours demo demo_process (t "{}") eq_refl)
    as [Hextract Hinit].
  split; [apply Hextract|].
  rewrite (Hinit theme_json w);
    [reflexivity | reflexivity | reflexivity | discriminate
     | reflexivity | reflexivity].
Defined.

Lemma mapping_round_trip_witness :
  let pairs := [(t "#111111", t "#222222"); (t "#abc", t "#DEF")] in
  (write_text replacements_txt (serialize pairs);;;
   read_replacements replacements_txt) (world_of [])
  = (Ok pairs, written replacements_txt (serialize pairs) (world_of [])).
Proof.
  intros pairs. apply mapping_round_trip.
  - discriminate.
  - repeat constructor.
Defined.

Lemma read_replacements_ignores_padding_witness :
  (read_replacements replacements_txt
     (world_of [(replacements_txt,
                 File ([newline; space] ++ t "#111111 #222222" ++ [newline]))])).1
  = (read_replacements replacements_txt
       (world_of [(replacements_txt, File (t "#111111 #222222"))])).1.
Proof.
  apply (read_replacements_ignores_padding replacements_txt (t "#111111 #222222")
           [newline; space] [newline]);
    reflexivity.
Defined.

Lemma apply_color_replacement_absent_witness :
  @apply_color_replacement demo (t "no colour here") (t "#fff") (t "#000") (world_of [])
  = (Ok (t "no colour here"), say (Replacing (t "#fff") (t "#000")) (world_of [])).
Proof.
  apply (@apply_color_replacement_absent demo);
    [discriminate | reflexivity | reflexivity | reflexivity].
Defined.

Lemma apply_color_replacement_any_case_witness :
  (@apply_color_replacement demo (t "a #AbC b") (t "#abc") (t "#123") (world_of [])).1
  = (@apply_color_replacement demo (t "a #AbC b") (t "#ABC") (t "#123") (world_of [])).1.
Proof.
  apply (@apply_color_replacement_any_case demo);
    [reflexivity | discriminate | discriminate | reflexivity | reflexivity].
Defined.

Lemma apply_all_or_nothing_witness :
  let w := world_of [(theme_json, File (t "edited"))] in
  files (@apply demo theme_json w).2 = files w.
Proof.
  intros w.
  apply (proj1 (@apply_all_or_nothing demo theme_json w) eq_refl
           (BadParameter (ReplacementsNotFound replacements_txt))).
  reflexivity.
Defined.

Lemma apply_idempotent_witness :
  let w := world_of [(theme_json, File (t "edited"));
                     (og_json, File ([dquote] ++ t "#112233" ++ [dquote]));
                     (replacements_txt, File (t "#112233 #445566"))] in
  exists w2,
    @apply demo theme_json (@apply demo theme_json w).2 = (Ok tt, w2)
    /\ files w2 = files (@apply demo theme_json w).2.
Proof.
  intros w. apply (@apply_idempotent demo theme_json w). reflexivity.
Defined.


(** With the echoing stand-in, which does not sort, a second [init] whose
    set comes in the other order succeeds as well but writes the mapping
    in that order: the hue sort has to give both orders the same answer. *)
Example init_again_in_other_order :
  let content := [dquote] ++ t "#111111" ++ [dquote; space; dquote] ++ t "#222222"
                 ++ [dquote] in
  let w := world_of [(theme_json, File content)] in
  let w1 := (@init demo demo_process theme_json w).2 in
  files w1 !! replacements_txt
  = Some (File (t "#111111 #111111" ++ [newline] ++ t "#222222 #222222"))
  /\ (@init demo reversed_process theme_json w1).1 = Ok tt
  /\ files (@init demo reversed_process theme_json w1).2 !! replacements_txt
     = Some (File (t "#222222 #222222" ++ [newline] ++ t "#111111 #111111")).
Proof. vm_compute. repeat split. Qed.

Lemma init_then_apply_witness :
  let content := [dquote] ++ t "#112233" ++ [dquote] in
  let w := world_of [(theme_json, File content)] in
  files (@apply demo theme_json (@init demo demo_process theme_json w).2).2 !! theme_json
  = Some (File content)
  /\ (@apply demo theme_json (@init demo demo_process theme_json w).2).1 = Ok tt.
Proof.
  intros content w.
  destruct (@init_then_apply demo demo_process theme_json w
              (@init demo demo_process theme_json w).2 content [t "#112233"])
    as (og_content & _ & Hsame & Htheme & Happly);
    [reflexivity | reflexivity | reflexivity | repeat constructor |].
  split.
  - rewrite Htheme, (Hsame eq_refl). reflexivity.
  - now rewrite (Happly eq_refl).
Defined.

Lemma init_keeps_snapshot_on_failure_witness :
  let content := [dquote] ++ t "#112233" ++ [dquote] in
  let w := world_of [(theme_json, File content)] in
  (@init faulty demo_process theme_json w).1
  = Raise (CalledProcessError [t "pastel"; t "sort-by"; t "hue"] 2)
  /\ files (@init faulty demo_process theme_json w).2
     = <[og_json := File content]> (files w).
Proof.
  intros content w.
  destruct (@init_keeps_snapshot_on_failure faulty demo_process theme_json w content
              (CalledProcessError [t "pastel"; t "sort-by"; t "hue"] 2)
              (@init faulty demo_process theme_json w).2 eq_refl eq_refl eq_refl)
    as (_ & Hfiles & Hinit).
  split; [now rewrite (proj1 (Hinit eq_refl)) | exact Hfiles].
Defined.

Lemma transform_raises_no_exit_status_witness :
  (exists argv input,
     OSError [t "pastel"; t "lighten"; t "0.1"; t "#000000"] = OSError argv
     /\ faulty_spawn argv input = NotStarted)
  \/ (exists line,
        OSError [t "pastel"; t "lighten"; t "0.1"; t "#000000"] = MarkupError line
        /\ plain line = false).
Proof.
  apply (@transform_raises_no_exit_status faulty
           [t "lighten 0.1"] (t "#000000") (world_of [])).
  reflexivity.
Defined.

Lemma format_failure_absorbed_witness :
  (@run_pastel_command faulty (t "#123456") (t "lighten 0.1") (world_of [])).1
  = Ok (t "#123456").
Proof.
  rewrite (@format_failure_absorbed faulty (t "#123456") (t "lighten 0.1")
             (t "#ffffff" ++ [newline]) 2 [] (world_of []));
    [reflexivity | reflexivity | reflexivity | discriminate | reflexivity].
Defined.

Lemma missing_replacements_rejected_witness :
  let w := world_of [(theme_json, File (t "edited"))] in
  @apply demo theme_json w
  = (Raise (BadParameter (ReplacementsNotFound replacements_txt)), w)
  /\ @run demo theme_json [t "lighten 0.1"] w
     = (Raise (BadParameter (ReplacementsNotFound replacements_txt)), w).
Proof.
  intros w.
  destruct (@missing_replacements_rejected demo theme_json [t "lighten 0.1"] w eq_refl)
    as [Happly Hrun].
  split; [apply Happly; exists (File (t "edited")); reflexivity | exact Hrun].
Defined.
